(** * Business-card manager backend: a shallow embedding of [backend/main.py]

    The development follows the Python module function by function.
    Python [str] values are Rocq strings whose characters are the code
    points below 256, so every statement is about such strings only; a
    [Dict[str, str]] is a finite map from strings to strings.  Library calls the module makes (the JSON decoder, the
    image library, the clock, the two external services) are parameters
    of the functions that use them; the [csv] module, whose behaviour
    decides what the record store holds, is embedded after CPython's
    [Modules/_csv.c] and [Lib/csv.py] for the default (excel) dialect. *)

From Stdlib Require Import Ascii String NArith ZArith Lia Bool.
From stdpp Require Import gmap strings list fin_maps.

(* stdpp freezes string concatenation under [simpl]; the proofs below
   compute with it. *)
Arguments String.append !s1 s2 /.

(** ** Python string primitives used by the module *)

Module PyStr.

Definition dquote : ascii := "034"%char.
Definition CR : ascii := "013"%char.
Definition LF : ascii := "010"%char.
Definition backtick : ascii := "`"%char.

(** [str.isspace] on one character (code points below 256). *)
Definition isspace (c : ascii) : bool :=
  let n := N_of_ascii c in
  ((9 <=? n) && (n <=? 13) || (28 <=? n) && (n <=? 32) || (n =? 133) || (n =? 160))%N.

Fixpoint lstrip (s : string) : string :=
  match s with
  | "" => ""
  | String c s' => if isspace c then lstrip s' else s
  end.

Fixpoint rstrip (s : string) : string :=
  match s with
  | "" => ""
  | String c s' =>
      match rstrip s' with
      | "" => if isspace c then "" else String c ""
      | r => String c r
      end
  end.

(** [s.strip()] *)
Definition strip (s : string) : string := rstrip (lstrip s).

(** [s.startswith(p)] *)
Definition startswith (p s : string) : bool := String.prefix p s.
Arguments startswith : simpl never.

(** [s[n:]] for [0 <= n] *)
Fixpoint drop (n : nat) (s : string) : string :=
  match n, s with
  | 0, _ => s
  | S _, "" => ""
  | S n', String _ s' => drop n' s'
  end.

(** [s.find(sub)]: index of the first occurrence, [None] for Python's -1;
    [s.index(sub)] raises [ValueError] exactly when this is [None]. *)
Fixpoint find (sub s : string) : option nat :=
  if startswith sub s then Some 0
  else match s with
       | "" => None
       | String _ s' => S <$> find sub s'
       end.

(** [s.rfind(sub)]: index of the last occurrence. *)
Fixpoint rfind (sub s : string) : option nat :=
  match s with
  | "" => if startswith sub "" then Some 0 else None
  | String _ s' =>
      match rfind sub s' with
      | Some i => Some (S i)
      | None => if startswith sub s then Some 0 else None
      end
  end.

(** [sub in s] *)
Definition contains (sub s : string) : bool := bool_decide (is_Some (find sub s)).

(** [s[i:j]] for [0 <= i] and [0 <= j]: empty when [j <= i]. *)
Definition slice (i j : nat) (s : string) : string := substring i (j - i) s.

(** [s.split(sep)] for a non-empty separator: the occurrences are taken
    left to right without overlap.  [skip] counts the characters of the
    separator occurrence that are still to be passed over. *)
Fixpoint split_from (sep : string) (skip : nat) (s : string) : list string :=
  match s with
  | "" => [""]
  | String c s' =>
      match skip with
      | S k => split_from sep k s'
      | 0 =>
          if startswith sep s then "" :: split_from sep (String.length sep - 1) s'
          else match split_from sep 0 s' with
               | p :: ps => String c p :: ps
               | [] => [String c ""]
               end
      end
  end.

Definition split (sep s : string) : list string := split_from sep 0 s.

(** [join] of the parts on the empty separator *)
Definition join_empty (parts : list string) : string := foldr String.app "" parts.

End PyStr.

(** ** [parse_json_blob] *)

Module Blob.
Import PyStr.

Definition fence : string := "```".

(** Lines 103-111: the text handed to the brace search. *)
Definition defenced (text : string) : string :=
  let cleaned := strip text in
  let cleaned :=
    if contains fence cleaned then
      let parts := split fence cleaned in
      if bool_decide (3 <= length parts) then nth 1 parts "" else join_empty parts
    else cleaned in
  if startswith "json" cleaned then drop 4 cleaned else cleaned.

(** Lines 112-117: the [try] block; a failing [index] or [rindex] leaves
    [cleaned] as it is. *)
Definition braces (cleaned : string) : string :=
  match find "{" cleaned with
  | None => cleaned
  | Some start =>
      match rfind "}" cleaned with
      | None => cleaned
      | Some e => slice start (e + 1) cleaned
      end
  end.

Section Parse.
(** [json.loads]; [None] stands for the [JSONDecodeError] it raises. *)
Context {J : Type} (json_loads : string -> option J).

Definition parse_json_blob (text : string) : option J :=
  json_loads (braces (defenced text)).
End Parse.

End Blob.

(** ** A decoder for JSON texts

    [json.loads] on [str] input, after [Lib/json/decoder.py] and
    [Lib/json/scanner.py]: used wherever a concrete decoder is needed.
    Numbers keep their lexeme; a [\u] escape above code point 255 lies
    outside the modelled characters and is refused. *)

Module Json.
Import PyStr.

#[local] Set Warnings "-register-all".

Inductive value :=
| Null
| Bool (b : bool)
| Number (lexeme : string)
| Str (s : string)
| Array (items : list value)
| Object (members : list (string * value)).

Definition is_ws (c : ascii) : bool :=
  let n := N_of_ascii c in ((n =? 32) || (n =? 9) || (n =? 10) || (n =? 13))%N.

Fixpoint skip_ws (s : string) : string :=
  match s with
  | String c r => if is_ws c then skip_ws r else s
  | "" => ""
  end.

Definition is_digit (c : ascii) : bool :=
  let n := N_of_ascii c in ((48 <=? n) && (n <=? 57))%N.

Definition hex_digit (c : ascii) : option N :=
  let n := N_of_ascii c in
  if ((48 <=? n) && (n <=? 57))%N then Some (n - 48)%N
  else if ((97 <=? n) && (n <=? 102))%N then Some (n - 87)%N
  else if ((65 <=? n) && (n <=? 70))%N then Some (n - 55)%N
  else None.

Definition unescape (c : ascii) : option ascii :=
  if Ascii.eqb c dquote then Some dquote
  else if Ascii.eqb c "\" then Some "\"%char
  else if Ascii.eqb c "/" then Some "/"%char
  else if Ascii.eqb c "b" then Some "008"%char
  else if Ascii.eqb c "f" then Some "012"%char
  else if Ascii.eqb c "n" then Some LF
  else if Ascii.eqb c "r" then Some CR
  else if Ascii.eqb c "t" then Some "009"%char
  else None.

(** The body of a string literal, after its opening quote. *)
Fixpoint scan_string (s : string) : option (string * string) :=
  match s with
  | "" => None
  | String c r =>
      if Ascii.eqb c dquote then Some ("", r)
      else if Ascii.eqb c "\" then
        match r with
        | "" => None
        | String e r' =>
            match unescape e with
            | Some ch =>
                match scan_string r' with
                | Some (t, rest) => Some (String ch t, rest)
                | None => None
                end
            | None =>
                match Ascii.eqb e "u", r' with
                | true, String h1 (String h2 (String h3 (String h4 r''))) =>
                    match hex_digit h1, hex_digit h2, hex_digit h3, hex_digit h4 with
                    | Some 0%N, Some 0%N, Some a, Some b =>
                        match scan_string r'' with
                        | Some (t, rest) => Some (String (ascii_of_N (16 * a + b)) t, rest)
                        | None => None
                        end
                    | _, _, _, _ => None
                    end
                | _, _ => None
                end
            end
        end
      else if (N_of_ascii c <? 32)%N then None
      else match scan_string r with
           | Some (t, rest) => Some (String c t, rest)
           | None => None
           end
  end.

Fixpoint span_digits (s : string) : string * string :=
  match s with
  | String c r =>
      if is_digit c then let '(ds, rest) := span_digits r in (String c ds, rest)
      else ("", s)
  | "" => ("", "")
  end.

(** [NUMBER_RE]: an integer part, then an optional fraction and an
    optional exponent, each taken only when complete. *)
Definition scan_number (s : string) : option (string * string) :=
  let '(sign, s1) :=
    match s with String "-" r => ("-", r) | _ => ("", s) end in
  let int_part :=
    match s1 with
    | String "0" r => Some ("0", r)
    | String c _ => if is_digit c then Some (span_digits s1) else None
    | "" => None
    end in
  match int_part with
  | None => None
  | Some (ip, s2) =>
      let '(frac, s3) :=
        match s2 with
        | String "." r =>
            let '(ds, rest) := span_digits r in
            if String.eqb ds "" then ("", s2) else ("." +:+ ds, rest)
        | _ => ("", s2)
        end in
      let '(ex, s4) :=
        match s3 with
        | String e r =>
            if Ascii.eqb e "e" || Ascii.eqb e "E" then
              let '(sg, r1) :=
                match r with
                | String "+" r' => ("+", r')
                | String "-" r' => ("-", r')
                | _ => ("", r)
                end in
              let '(ds, rest) := span_digits r1 in
              if String.eqb ds "" then ("", s3) else (String e (sg +:+ ds), rest)
            else ("", s3)
        | "" => ("", s3)
        end in
      Some (sign +:+ ip +:+ frac +:+ ex, s4)
  end.

Definition literal (word : string) (v : value) (s : string) : option (value * string) :=
  if startswith word s then Some (v, drop (String.length word) s) else None.

(** [scan_once], [JSONObject] and [JSONArray]; [fuel] bounds the nesting
    and the number of members, and the length of the text is enough. *)
Fixpoint scan_once (fuel : nat) (s : string) : option (value * string) :=
  match fuel with
  | 0 => None
  | S f =>
      match s with
      | "" => None
      | String c r =>
          if Ascii.eqb c dquote then
            match scan_string r with
            | Some (t, rest) => Some (Str t, rest)
            | None => None
            end
          else if Ascii.eqb c "{" then
            match skip_ws r with
            | String "}" rest => Some (Object [], rest)
            | r1 => match members f r1 with
                    | Some (ms, rest) => Some (Object ms, rest)
                    | None => None
                    end
            end
          else if Ascii.eqb c "[" then
            match skip_ws r with
            | String "]" rest => Some (Array [], rest)
            | r1 => match items f r1 with
                    | Some (vs, rest) => Some (Array vs, rest)
                    | None => None
                    end
            end
          else if Ascii.eqb c "n" then literal "null" Null s
          else if Ascii.eqb c "t" then literal "true" (Bool true) s
          else if Ascii.eqb c "f" then literal "false" (Bool false) s
          else if Ascii.eqb c "N" then literal "NaN" (Number "NaN") s
          else if Ascii.eqb c "I" then literal "Infinity" (Number "Infinity") s
          else if startswith "-Infinity" s then literal "-Infinity" (Number "-Infinity") s
          else match scan_number s with
               | Some (lexeme, rest) => Some (Number lexeme, rest)
               | None => None
               end
      end
  end
with members (fuel : nat) (s : string) : option (list (string * value) * string) :=
  match fuel with
  | 0 => None
  | S f =>
      match s with
      | String c r =>
          if Ascii.eqb c dquote then
            match scan_string r with
            | None => None
            | Some (key, r1) =>
                match skip_ws r1 with
                | String ":" r2 =>
                    match scan_once f (skip_ws r2) with
                    | None => None
                    | Some (v, r3) =>
                        match skip_ws r3 with
                        | String "}" rest => Some ([(key, v)], rest)
                        | String "," r4 =>
                            match members f (skip_ws r4) with
                            | Some (ms, rest) => Some ((key, v) :: ms, rest)
                            | None => None
                            end
                        | _ => None
                        end
                    end
                | _ => None
                end
            end
          else None
      | "" => None
      end
  end
with items (fuel : nat) (s : string) : option (list value * string) :=
  match fuel with
  | 0 => None
  | S f =>
      match scan_once f s with
      | None => None
      | Some (v, r) =>
          match skip_ws r with
          | String "]" rest => Some ([v], rest)
          | String "," r1 =>
              match items f (skip_ws r1) with
              | Some (vs, rest) => Some (v :: vs, rest)
              | None => None
              end
          | _ => None
          end
      end
  end.

(** [json.loads(s)]: one value, surrounded by JSON whitespace only. *)
Definition loads (s : string) : option value :=
  match scan_once (S (String.length s)) (skip_ws s) with
  | Some (v, rest) => if String.eqb (skip_ws rest) "" then Some v else None
  | None => None
  end.

(** Writes a text with apostrophes where the JSON text has double quotes. *)
Fixpoint q (s : string) : string :=
  match s with
  | "" => ""
  | String c r => String (if Ascii.eqb c "'" then dquote else c) (q r)
  end.

End Json.

(** ** The [csv] module, excel dialect

    [csv.DictWriter] and [csv.DictReader] are used with their defaults:
    delimiter comma, the double quote as quote character, doubled, line terminator
    CR LF, minimal quoting, no escape character, not strict, and the
    module-wide field size limit of 131072 characters.  The embedding
    follows CPython 3.11 and later, where the end of a line is a
    sentinel of its own and the NUL character is an ordinary one. *)

Module Csv.
Import PyStr.

Inductive error :=
| FieldLimit       (* "field larger than field limit (131072)" *)
| NewlineInField.  (* "new-line character seen in unquoted field" *)

Definition field_limit : N := 131072.

Definition comma : ascii := ","%char.

(** *** Writer ([join_append_data], [csv_writerow]) *)

(** The characters that make minimal quoting quote a field. *)
Definition special (c : ascii) : bool :=
  Ascii.eqb c comma || Ascii.eqb c dquote || Ascii.eqb c CR || Ascii.eqb c LF.

Fixpoint needs_quotes (s : string) : bool :=
  match s with
  | "" => false
  | String c s' => special c || needs_quotes s'
  end.

Fixpoint double_quotes (s : string) : string :=
  match s with
  | "" => ""
  | String c s' =>
      if Ascii.eqb c dquote then String dquote (String dquote (double_quotes s'))
      else String c (double_quotes s')
  end.

Definition write_field (s : string) : string :=
  if needs_quotes s then String dquote (double_quotes s +:+ String dquote "") else s.

Fixpoint join_fields (fs : list string) : string :=
  match fs with
  | [] => ""
  | [f] => write_field f
  | f :: fs' => write_field f +:+ String comma (join_fields fs')
  end.

Definition line_terminator : string := String CR (String LF "").

(** One record; a record made of a single empty field is written as a
    pair of quotes. *)
Definition writerow (fs : list string) : string :=
  match fs with
  | [""] => String dquote (String dquote line_terminator)
  | _ => join_fields fs +:+ line_terminator
  end.

(** *** The lines a text file yields when opened with an empty [newline] argument

    Lines end at LF, at CR LF, or at a CR that no LF follows; the
    terminator stays on the line. *)

Definition ends_line (c : ascii) (rest : string) : bool :=
  Ascii.eqb c LF || (Ascii.eqb c CR && negb (startswith (String LF "") rest)).

Definition cons_line (c : ascii) (ls : list string) : list string :=
  match ls with
  | [] => [String c ""]
  | l :: ls' => String c l :: ls'
  end.

Fixpoint file_lines (s : string) : list string :=
  match s with
  | "" => []
  | String c rest =>
      if ends_line c rest then String c "" :: file_lines rest
      else cons_line c (file_lines rest)
  end.

(** *** Reader ([parse_process_char], [Reader_iternext]) *)

(** The states of the parser; the three states that follow an escape
    character cannot be entered when the dialect has none. *)
Inductive pstate :=
| START_RECORD | START_FIELD | IN_FIELD
| IN_QUOTED_FIELD | QUOTE_IN_QUOTED_FIELD | EAT_CRNL.

#[global] Instance pstate_eq_dec : EqDecision pstate.
Proof. solve_decision. Defined.

(** [fields] and [field] are kept last-first. *)
Record reader := Reader {
  state : pstate;
  fields : list string;
  field : string;
  field_len : N
}.

Definition fresh : reader := Reader START_RECORD [] "" 0.

Definition parse_add_char (r : reader) (c : ascii) : error + reader :=
  if (field_limit <=? field_len r)%N then inl FieldLimit
  else inr (Reader (state r) (fields r) (String c (field r)) (field_len r + 1)).

Definition parse_save_field (r : reader) : reader :=
  Reader (state r) (String.rev (field r) :: fields r) "" 0.

Definition set_state (s : pstate) (r : reader) : reader :=
  Reader s (fields r) (field r) (field_len r).

Definition is_newline (c : ascii) : bool := Ascii.eqb c LF || Ascii.eqb c CR.

(** One character of a line. *)
Definition parse_process_char (r : reader) (c : ascii) : error + reader :=
  match state r with
  | START_RECORD | START_FIELD =>
      if (if state r is START_RECORD then is_newline c else false)
      then inr (set_state EAT_CRNL r)
      else if is_newline c then inr (set_state EAT_CRNL (parse_save_field r))
      else if Ascii.eqb c dquote then inr (set_state IN_QUOTED_FIELD r)
      else if Ascii.eqb c comma then inr (set_state START_FIELD (parse_save_field r))
      else match parse_add_char r c with
           | inr r' => inr (set_state IN_FIELD r')
           | inl e => inl e
           end
  | IN_FIELD =>
      if is_newline c then inr (set_state EAT_CRNL (parse_save_field r))
      else if Ascii.eqb c comma then inr (set_state START_FIELD (parse_save_field r))
      else parse_add_char r c
  | IN_QUOTED_FIELD =>
      if Ascii.eqb c dquote then inr (set_state QUOTE_IN_QUOTED_FIELD r)
      else parse_add_char r c
  | QUOTE_IN_QUOTED_FIELD =>
      if Ascii.eqb c dquote then
        match parse_add_char r c with
        | inr r' => inr (set_state IN_QUOTED_FIELD r')
        | inl e => inl e
        end
      else if Ascii.eqb c comma then inr (set_state START_FIELD (parse_save_field r))
      else if is_newline c then inr (set_state EAT_CRNL (parse_save_field r))
      else match parse_add_char r c with
           | inr r' => inr (set_state IN_FIELD r')
           | inl e => inl e
           end
  | EAT_CRNL =>
      if is_newline c then inr r else inl NewlineInField
  end.

(** The end-of-line sentinel passed after the characters of each line. *)
Definition parse_process_eol (r : reader) : reader :=
  match state r with
  | START_RECORD => r
  | START_FIELD | IN_FIELD | QUOTE_IN_QUOTED_FIELD =>
      set_state START_RECORD (parse_save_field r)
  | IN_QUOTED_FIELD => r
  | EAT_CRNL => set_state START_RECORD r
  end.

(** [list(csv.reader(f))]: lines are consumed until the parser is back at
    the start of a record, which yields a row; at the end of the file a
    record left open inside a quoted field is yielded as it stands.  The
    rows read so far are kept last-first in [acc]. *)
Fixpoint read_rows (lines : list string) (r : reader) (acc : list (list string))
  : error + list (list string) :=
  match lines with
  | [] =>
      if (negb (field_len r =? 0)%N) || bool_decide (state r = IN_QUOTED_FIELD)
      then inr (reverse (reverse (fields (parse_save_field r)) :: acc))
      else inr (reverse acc)
  | line :: rest =>
      (fix chars (l : string) (r : reader) {struct l} : error + list (list string) :=
         match l with
         | String c l' =>
             match parse_process_char r c with
             | inl e => inl e
             | inr r' => chars l' r'
             end
         | "" =>
             let r' := parse_process_eol r in
             if bool_decide (state r' = START_RECORD)
             then read_rows rest fresh (reverse (fields r') :: acc)
             else read_rows rest r' acc
         end) line r
  end.

Definition reader_rows (content : string) : error + list (list string) :=
  read_rows (file_lines content) fresh [].

End Csv.

(** ** Capture time: [extract_capture_datetime] *)

Module Capture.
Import PyStr.

(** A [datetime] value; its time zone is attached when it is printed. *)
Record datetime := DateTime {
  year : N; month : N; day : N;
  hour : N; minute : N; second : N; microsecond : N
}.

(** The ranges every [datetime] object keeps. *)
Definition in_range (d : datetime) : Prop :=
  (1 <= year d <= 9999 /\ 1 <= month d <= 12 /\ 1 <= day d <= 31 /\
   hour d < 24 /\ minute d < 60 /\ second d < 60 /\ microsecond d < 1000000)%N.

Definition digit (n : N) : ascii := ascii_of_N (48 + n mod 10).

(** The last [w] decimal digits of [n], before [acc]. *)
Fixpoint fixed_width (w : nat) (n : N) (acc : string) : string :=
  match w with
  | 0 => acc
  | S w' => fixed_width w' (n / 10) (String (digit n) acc)
  end.

Fixpoint decimal_digits (fuel : nat) (n : N) (acc : string) : string :=
  match fuel with
  | 0 => acc
  | S fuel' =>
      let acc' := String (digit n) acc in
      if (n / 10 =? 0)%N then acc' else decimal_digits fuel' (n / 10) acc'
  end.

Definition decimal (n : N) : string := decimal_digits (S (N.size_nat n)) n "".

(** The format [%0wd]: decimal, zero-padded on the left to [w] digits. *)
Definition zero_padded (w : nat) (n : N) : string :=
  if (n <? 10 ^ N.of_nat w)%N then fixed_width w n "" else decimal n.

(** [d.replace(tzinfo=timezone.utc).isoformat()], which is also what
    [isoformat] gives for an aware UTC value. *)
Definition isoformat_utc (d : datetime) : string :=
  zero_padded 4 (year d) +:+ "-" +:+ zero_padded 2 (month d) +:+ "-"
  +:+ zero_padded 2 (day d) +:+ "T" +:+ zero_padded 2 (hour d) +:+ ":"
  +:+ zero_padded 2 (minute d) +:+ ":" +:+ zero_padded 2 (second d)
  +:+ (if (microsecond d =? 0)%N then "" else "." +:+ zero_padded 6 (microsecond d))
  +:+ "+00:00".

(** [matches pat s]: [s] has the shape [pat], where a [d] of the pattern
    stands for any decimal digit and every other character for itself. *)
Fixpoint matches (pat s : string) : bool :=
  match pat, s with
  | "", "" => true
  | String p pat', String c s' =>
      (if Ascii.eqb p "d" then Json.is_digit c else Ascii.eqb p c) && matches pat' s'
  | _, _ => false
  end.

(** An ISO 8601 timestamp in UTC, with or without microseconds. *)
Definition is_iso_timestamp (s : string) : bool :=
  matches "dddd-dd-ddTdd:dd:dd+00:00" s || matches "dddd-dd-ddTdd:dd:dd.dddddd+00:00" s.

(** What the image library finds in the bytes.  [CannotOpen]: opening
    the image or reading its metadata raises.  [Entries items complete]:
    iterating the metadata yields [items] in order and then ends, or
    raises when [complete] is false. *)
Inductive exif_value := ExifStr (s : string) | ExifOther.

Inductive exif_read :=
| CannotOpen
| Entries (items : list (N * exif_value)) (complete : bool).

Inductive exn := ImageError | TypeError | ValueError.

Section Extract.
Context (image_exif : list Byte.byte -> exif_read)
        (TAGS : gmap N string)
        (strptime : string -> option datetime)
        (now : datetime).

(** [ExifTags.TAGS.get(tag_id, tag_id)] *)
Definition tag_of (tag_id : N) : string + N :=
  match TAGS !! tag_id with
  | Some name => inl name
  | None => inr tag_id
  end.

Definition is_datetime_tag (tag : string + N) : bool :=
  match tag with
  | inl name => bool_decide (name ∈ ["DateTimeOriginal"; "DateTimeDigitized"; "DateTime"])
  | inr _ => false
  end.

(** Lines 130-131; [strptime] raises on a value that is not a string
    and on a string that does not have the format. *)
Definition parse_value (value : exif_value) : exn + string :=
  match value with
  | ExifOther => inl TypeError
  | ExifStr s =>
      match strptime s with
      | None => inl ValueError
      | Some parsed => inr (isoformat_utc parsed)
      end
  end.

(** The [for] loop of lines 126-133: [Some] is the value returned from
    inside the loop. *)
Fixpoint scan_items (items : list (N * exif_value)) : option string :=
  match items with
  | [] => None
  | (tag_id, value) :: rest =>
      if is_datetime_tag (tag_of tag_id) then
        match parse_value value with
        | inr s => Some s
        | inl _ => scan_items rest
        end
      else scan_items rest
  end.

(** The body of the outer [try]. *)
Definition read_capture (image_bytes : list Byte.byte) : exn + option string :=
  match image_exif image_bytes with
  | CannotOpen => inl ImageError
  | Entries items complete =>
      match scan_items items with
      | Some s => inr (Some s)
      | None => if complete then inr None else inl ImageError
      end
  end.

Definition extract_capture_datetime (image_bytes : list Byte.byte) : exn + string :=
  match read_capture image_bytes with
  | inr (Some s) => inr s
  | inr None | inl _ => inr (isoformat_utc now)
  end.

(** The capture time an entry carries, if it is a date-time tag whose
    value parses. *)
Definition capture_of (item : N * exif_value) : option datetime :=
  if is_datetime_tag (tag_of item.1) then
    match item.2 with
    | ExifStr s => strptime s
    | ExifOther => None
    end
  else None.

End Extract.

(** The date-time tags of the image library's table. *)
Definition datetime_tags : gmap N string :=
  {[ 306%N := "DateTime"; 36867%N := "DateTimeOriginal"; 36868%N := "DateTimeDigitized" ]}.

End Capture.

(** ** The application: record store and request handlers *)

Module App.
Import PyStr Csv.

Definition COLUMNS : list string :=
  [ "id"; "first_name"; "last_name"; "company"; "company_logo_description";
    "email"; "phone"; "address"; "meeting_context"; "priorities";
    "personal_notes"; "captured_at"; "source_image"; "summary_image";
    "raw_ocr_json" ].

(** [class CardContext] *)
Record CardContext := {
  meeting_context : string;
  priorities : string;
  personal_notes : string
}.

(** [class CardResponse] *)
Record CardResponse := {
  resp_id : string;
  resp_first_name : string;
  resp_last_name : string;
  resp_company : string;
  resp_company_logo_description : string;
  resp_email : string;
  resp_phone : string;
  resp_address : string;
  resp_meeting_context : string;
  resp_priorities : string;
  resp_personal_notes : string;
  resp_captured_at : string;
  resp_source_image_url : option string;
  resp_summary_image_url : option string;
  resp_raw_ocr_json : string
}.

(** The uploaded file, as the handler sees it. *)
Record UploadFile := {
  file_bytes : list Byte.byte;
  content_type : option string;
  filename : option string
}.

(** The arguments of [client.chat.completions.create] in
    [extract_card_details]. *)
Record chat_request := {
  chat_model : string;
  system_content : string;
  user_text : string;
  image_url : string;
  temperature : N;
  response_format : string
}.

(** Calls that leave the module: the chat completion request of
    [extract_card_details] and the call of [create_image]. *)
Inductive request_event :=
| ChatCompletion (req : chat_request)
| ImageGeneration (prompt size : string).

Inductive exn :=
| CsvError (e : Csv.error)
| ValueError            (* DictWriter: the dict has keys that are no field names *)
| KeyError (key : string)
| RowShape              (* no exception of the program: a row that makes no Dict[str, str] *)
| CaptureError (e : Capture.exn)
| JSONDecodeError
| ServiceError.         (* a call that leaves the module failed *)

Inductive outcome (A : Type) :=
| Ok (a : A)
| HTTPException (status_code : N) (detail : string)
| Raised (e : exn).
Arguments Ok {A} a.
Arguments HTTPException {A} status_code detail.
Arguments Raised {A} e.

(** What the handlers read and write: the CSV file ([None] while it does
    not exist), the image directory, and the requests issued so far. *)
Record world := World {
  data_file : option string;
  image_dir : gmap string (list Byte.byte);
  issued : list request_event
}.

Definition M (A : Type) : Type := world -> outcome A * world.

Definition ret {A} (a : A) : M A := fun w => (Ok a, w).

Definition bind {A B} (m : M A) (f : A -> M B) : M B := fun w =>
  match m w with
  | (Ok a, w') => f a w'
  | (HTTPException c d, w') => (HTTPException c d, w')
  | (Raised e, w') => (Raised e, w')
  end.

Declare Scope M_scope.
Delimit Scope M_scope with M.
Notation "x ← y ; z" := (bind y (fun x => z))
  (at level 20, y at level 100, z at level 200, only parsing) : M_scope.
Notation "x ;; z" := (bind x (fun _ => z))
  (at level 100, z at level 200, only parsing, right associativity) : M_scope.
#[local] Open Scope M_scope.

Definition raise {A} (e : exn) : M A := fun w => (Raised e, w).
Definition http_error {A} (status_code : N) (detail : string) : M A :=
  fun w => (HTTPException status_code detail, w).

Definition lift {E A} (wrap : E -> exn) (r : E + A) : M A :=
  match r with
  | inl e => raise (wrap e)
  | inr a => ret a
  end.

Definition issue (ev : request_event) : M unit := fun w =>
  (Ok (), World (data_file w) (image_dir w) (issued w ++ [ev])).

(** The collaborators outside the module. *)
Record env := Env {
  (* [Image.open], [getexif] and the iteration over its items *)
  image_exif : list Byte.byte -> Capture.exif_read;
  (* [ExifTags.TAGS] *)
  TAGS : gmap N string;
  (* [datetime.strptime] with the format of line 130 *)
  strptime : string -> option Capture.datetime;
  (* [datetime.now(timezone.utc)] *)
  now : Capture.datetime;
  (* [str(uuid.uuid4())] *)
  uuid4 : string;
  (* [Path(name).suffix] *)
  path_suffix : string -> string;
  (* [base64.b64encode(...).decode("utf-8")] *)
  b64encode : list Byte.byte -> string;
  (* [client.chat.completions.create(...).choices[0].message.content] *)
  chat_service : chat_request -> exn + string;
  (* [json.loads], giving the [Dict[str, str]] of the annotations *)
  json_loads : string -> option (gmap string string);
  (* [json.dumps(..., ensure_ascii=False)] *)
  json_dumps : gmap string string -> string;
  (* [create_image(prompt, size=...)] of the module [utils] *)
  utils_create_image : string -> string -> exn + list Byte.byte
}.

(** *** The record store *)

Definition header_row : string := writerow COLUMNS.

Definition ensure_data_file : M unit := fun w =>
  match data_file w with
  | Some _ => (Ok (), w)
  | None => (Ok (), World (Some header_row) (image_dir w) (issued w))
  end.

(** [DictReader]: the first row names the fields, empty rows are passed
    over, and each other row becomes a dict.  On a row that is shorter
    or longer than the header [DictReader] does not raise: it fills the
    missing fields with [None], or puts the surplus under the key
    [None].  Such a dict is no [Dict[str, str]], the type the records
    have here, so the embedding has no value for it and stops with
    [RowShape] where the program would go on.  [write_records] writes
    every row as long as the header, and what the statements below say
    about the records read, they say of data files that it wrote. *)
Definition dict_of_row (fieldnames row : list string) : exn + gmap string string :=
  if bool_decide (length row = length fieldnames)
  then inr (list_to_map (reverse (zip fieldnames row)))
  else inl RowShape.

Fixpoint dict_rows (fieldnames : list string) (rows : list (list string))
  : exn + list (gmap string string) :=
  match rows with
  | [] => inr []
  | [] :: rest => dict_rows fieldnames rest
  | row :: rest =>
      match dict_of_row fieldnames row with
      | inl e => inl e
      | inr d =>
          match dict_rows fieldnames rest with
          | inl e => inl e
          | inr ds => inr (d :: ds)
          end
      end
  end.

Definition dict_reader (content : string) : exn + list (gmap string string) :=
  match reader_rows content with
  | inl e => inl (CsvError e)
  | inr [] => inr []
  | inr (fieldnames :: rows) => dict_rows fieldnames rows
  end.

Definition load_records : M (list (gmap string string)) :=
  ensure_data_file ;;
  fun w => lift id (dict_reader (default "" (data_file w))) w.

(** [DictWriter._dict_to_list] with [extrasaction="raise"] and an empty
    [restval]. *)
Definition dict_to_list (row : gmap string string) : exn + list string :=
  if bool_decide (dom row ⊆ list_to_set COLUMNS)
  then inr ((fun key => default "" (row !! key)) <$> COLUMNS)
  else inl ValueError.

(** The rows written before the writer stops, and the exception that
    stopped it if any. *)
Fixpoint written (records : list (gmap string string)) : string * option exn :=
  match records with
  | [] => ("", None)
  | row :: rest =>
      match dict_to_list row with
      | inl e => ("", Some e)
      | inr fs => let '(out, e) := written rest in (writerow fs +:+ out, e)
      end
  end.

(** The file is truncated when it is opened; what was written stays in
    it when a row raises.  The file is opened with the utf-8 encoding:
    every character of the strings here, a code point below 256, is
    encoded, so the encoder never raises.  A [str] with a lone
    surrogate, which [json.loads] can return, lies outside these
    strings; on it the program raises [UnicodeEncodeError] after the
    file was truncated. *)
Definition write_records (records : list (gmap string string)) : M unit :=
  ensure_data_file ;;
  fun w =>
    let '(out, e) := written records in
    let w' := World (Some (header_row +:+ out)) (image_dir w) (issued w) in
    match e with
    | None => (Ok (), w')
    | Some e => (Raised e, w')
    end.

(** The [for] loop of [update_record]: [before ++ rows] is the list
    loaded, [rows] its part still to visit. *)
Fixpoint update_loop (card_id : string) (changes : gmap string string)
  (before rows : list (gmap string string)) : M (gmap string string) :=
  match rows with
  | [] => http_error 404 "Card not found"
  | row :: rest =>
      match row !! "id" with
      | None => raise (KeyError "id")
      | Some v =>
          if bool_decide (v = card_id) then
            let row' := changes ∪ row in
            write_records (before ++ row' :: rest) ;;
            ret row'
          else update_loop card_id changes (before ++ [row]) rest
      end
  end.

Definition update_record (card_id : string) (changes : gmap string string)
  : M (gmap string string) :=
  records ← load_records;
  update_loop card_id changes [] records.

(** *** Uploading and extraction *)

Definition save_image (image_bytes : list Byte.byte) (name : string) : M string := fun w =>
  (Ok name, World (data_file w) (<[name := image_bytes]> (image_dir w)) (issued w)).

(** [record.get(key, default)] *)
Definition get (record : gmap string string) (key default : string) : string :=
  match record !! key with
  | Some v => v
  | None => default
  end.

(** The keys the system message asks for. *)
Definition requested_keys : list string :=
  [ "first_name"; "last_name"; "company"; "company_logo_description";
    "email"; "phone"; "address" ].

Definition system_prompt : string :=
  "You extract business card details. Respond with JSON only and include the keys: "
  +:+ "first_name, last_name, company, company_logo_description, email, phone, address.".

Definition user_prompt : string :=
  "Extract the contact details from this business card. "
  +:+ "Use empty strings for missing values and keep phone numbers exactly as shown.".

(** [x or default] on an optional string *)
Definition or_else (x : option string) (default : string) : string :=
  match x with
  | Some (String c s) => String c s
  | _ => default
  end.

Definition extraction_request (e : env) (image_bytes : list Byte.byte)
  (content_type : option string) : chat_request :=
  let mime_type := or_else content_type "image/png" in
  let b64 := b64encode e image_bytes in
  let data_url := "data:" +:+ mime_type +:+ ";base64," +:+ b64 in
  {| chat_model := "gpt-4o-mini";
     system_content := system_prompt;
     user_text := user_prompt;
     image_url := data_url;
     temperature := 0;
     response_format := "json_object" |}.

Definition extract_card_details (e : env) (image_bytes : list Byte.byte)
  (content_type : option string) : M (gmap string string) :=
  let req := extraction_request e image_bytes content_type in
  issue (ChatCompletion req) ;;
  content ← lift id (chat_service e req);
  match Blob.parse_json_blob (json_loads e) content with
  | Some extracted => ret extracted
  | None => raise JSONDecodeError
  end.

(** A record field that is missing or empty makes the URL [None]. *)
Definition media_url (record : gmap string string) (key : string) : option string :=
  match record !! key with
  | Some (String c s) => Some ("/media/" +:+ String c s)
  | _ => None
  end.

Definition serialize_record (record : gmap string string) : CardResponse :=
  {| resp_id := get record "id" "";
     resp_first_name := get record "first_name" "";
     resp_last_name := get record "last_name" "";
     resp_company := get record "company" "";
     resp_company_logo_description := get record "company_logo_description" "";
     resp_email := get record "email" "";
     resp_phone := get record "phone" "";
     resp_address := get record "address" "";
     resp_meeting_context := get record "meeting_context" "";
     resp_priorities := get record "priorities" "";
     resp_personal_notes := get record "personal_notes" "";
     resp_captured_at := get record "captured_at" "";
     resp_source_image_url := media_url record "source_image";
     resp_summary_image_url := media_url record "summary_image";
     resp_raw_ocr_json := get record "raw_ocr_json" "{}" |}.

(** Lines 252-268 *)
Definition new_record (e : env) (card_id capture_time source_image_name : string)
  (extracted : gmap string string) : gmap string string :=
  list_to_map
    [ ("id", card_id);
      ("first_name", get extracted "first_name" "");
      ("last_name", get extracted "last_name" "");
      ("company", get extracted "company" "");
      ("company_logo_description", get extracted "company_logo_description" "");
      ("email", get extracted "email" "");
      ("phone", get extracted "phone" "");
      ("address", get extracted "address" "");
      ("meeting_context", "");
      ("priorities", "");
      ("personal_notes", "");
      ("captured_at", capture_time);
      ("source_image", source_image_name);
      ("summary_image", "");
      ("raw_ocr_json", json_dumps e extracted) ].

Definition upload_card (e : env) (file : option UploadFile) : M CardResponse :=
  match file with
  | None => http_error 400 "No file uploaded."
  | Some file =>
      let image_bytes := file_bytes file in
      match image_bytes with
      | [] => http_error 400 "Uploaded file is empty."
      | _ =>
          capture_time ←
            lift CaptureError
              (Capture.extract_capture_datetime (image_exif e) (TAGS e) (strptime e) (now e)
                 image_bytes);
          extracted ← extract_card_details e image_bytes (content_type file);
          let card_id := uuid4 e in
          let source_ext := or_else (Some (path_suffix e (or_else (filename file) "card.png"))) ".png" in
          source_image_name ← save_image image_bytes (card_id +:+ "_source" +:+ source_ext);
          let record := new_record e card_id capture_time source_image_name extracted in
          records ← load_records;
          write_records (records ++ [record]) ;;
          ret (serialize_record record)
      end
  end.

(** *** Context and summary image *)

Definition summarize_for_image (record : gmap string string) (context : CardContext) : string :=
  let full_name :=
    strip (strip (get record "first_name" "") +:+ " " +:+ strip (get record "last_name" "")) in
  "Create a friendly, professional portrait for "
  +:+ (match full_name with "" => "this contact" | _ => full_name end)
  +:+ " who works at " +:+ get record "company" "unknown company" +:+ ". "
  +:+ "Highlight cues from the business card: phone " +:+ get record "phone" "n/a"
  +:+ ", email " +:+ get record "email" "n/a" +:+ ". "
  +:+ "Meeting context: " +:+ meeting_context context
  +:+ ". Priorities: " +:+ priorities context
  +:+ ". Personal details: " +:+ personal_notes context +:+ ". "
  +:+ "Style: clean, corporate-ready, subtle background with company color hints, photographic realism.".

(** A call of [create_image], which the module imports from [utils]:
    the call is recorded with its arguments, and what it returns or
    raises is the collaborator's. *)
Definition create_image (e : env) (prompt size : string) : M (list Byte.byte) :=
  issue (ImageGeneration prompt size) ;;
  lift id (utils_create_image e prompt size).

Definition context_changes (payload : CardContext) : gmap string string :=
  list_to_map
    [ ("meeting_context", meeting_context payload);
      ("priorities", priorities payload);
      ("personal_notes", personal_notes payload) ].

Definition save_context (e : env) (card_id : string) (payload : CardContext) : M CardResponse :=
  record ← update_record card_id (context_changes payload);
  let summary_prompt := summarize_for_image record payload in
  summary_bytes ← create_image e summary_prompt "1024x1024";
  summary_image_name ← save_image summary_bytes (card_id +:+ "_summary.png");
  record ← update_record card_id {[ "summary_image" := summary_image_name ]};
  ret (serialize_record record).

(** *** Reading *)

Definition list_cards : M (list CardResponse) :=
  records ← load_records;
  ret (serialize_record <$> records).

Fixpoint get_loop (card_id : string) (rows : list (gmap string string)) : M CardResponse :=
  match rows with
  | [] => http_error 404 "Card not found"
  | record :: rest =>
      match record !! "id" with
      | None => raise (KeyError "id")
      | Some v =>
          if bool_decide (v = card_id) then ret (serialize_record record)
          else get_loop card_id rest
      end
  end.

Definition get_card (card_id : string) : M CardResponse :=
  records ← load_records;
  get_loop card_id records.

End App.

(** ** Facts about the string primitives *)

Module PyStrFacts.
Import PyStr.

Lemma sapp_nil_r (s : string) : s +:+ "" = s.
Proof. induction s as [|c s IH]; simpl; [done | by rewrite IH]. Qed.

Lemma sapp_assoc (a b c : string) : (a +:+ b) +:+ c = a +:+ (b +:+ c).
Proof. induction a as [|x a IH]; simpl; [done | by rewrite IH]. Qed.

Lemma slength_app (a b : string) :
  String.length (a +:+ b) = String.length a + String.length b.
Proof. induction a as [|x a IH]; simpl; [done | by rewrite IH]. Qed.

(** [lacks c s]: the character [c] does not occur in [s]. *)
Fixpoint lacks (c : ascii) (s : string) : bool :=
  match s with
  | "" => true
  | String x s' => negb (Ascii.eqb x c) && lacks c s'
  end.

Lemma lacks_app c a b : lacks c (a +:+ b) = lacks c a && lacks c b.
Proof.
  induction a as [|x a IH]; simpl; [done |].
  rewrite IH. by rewrite andb_assoc.
Qed.

Lemma lacks_cons c x s : lacks c (String x s) = true -> x <> c /\ lacks c s = true.
Proof.
  simpl. intros [Hx Hs]%andb_true_iff. split; [| done].
  apply negb_true_iff in Hx. by apply Ascii.eqb_neq.
Qed.

(** *** Stripping *)

Lemma lstrip_lacks c s : lacks c s = true -> lacks c (lstrip s) = true.
Proof.
  induction s as [|x s IH]; simpl; [done |].
  intros H. destruct (isspace x); [| done].
  apply IH. by apply andb_true_iff in H as [_ ?].
Qed.

Lemma lstrip_app_nonspace a c b :
  isspace c = false -> lstrip (a +:+ String c b) = lstrip a +:+ String c b.
Proof.
  intros Hc. induction a as [|x a IH]; simpl; [by rewrite Hc |].
  by destruct (isspace x).
Qed.

Lemma rstrip_nonspace c s : isspace c = false -> rstrip (String c s) = String c (rstrip s).
Proof. intros Hc. simpl. rewrite Hc. by destruct (rstrip s). Qed.

Lemma rstrip_app_keep a s : rstrip s <> "" -> rstrip (a +:+ s) = a +:+ rstrip s.
Proof.
  intros Hs. induction a as [|x a IH]; simpl; [done |].
  rewrite IH. destruct (a +:+ rstrip s) eqn:E; [| done].
  destruct a; simpl in E; [done | discriminate].
Qed.

(** *** Finding substrings *)

Lemma startswith_nil s : startswith "" s = true.
Proof. by destruct s. Qed.

Lemma startswith_cons c p s : startswith (String c p) (String c s) = startswith p s.
Proof. unfold startswith. simpl. by destruct (ascii_dec c c). Qed.

Lemma startswith_cons_eqb x p c s :
  startswith (String x p) (String c s) = Ascii.eqb x c && startswith p s.
Proof.
  unfold startswith. cbn [String.prefix].
  by destruct (ascii_dec x c), (Ascii.eqb_spec x c).
Qed.

Lemma startswith_app p s : startswith p (p +:+ s) = true.
Proof.
  induction p as [|x p IH]; simpl; [apply startswith_nil |].
  by rewrite startswith_cons.
Qed.

Lemma startswith_head_ne x p c s : x <> c -> startswith (String x p) (String c s) = false.
Proof. intros H. unfold startswith. simpl. by destruct (ascii_dec x c). Qed.

Lemma find_unfold sub s :
  find sub s =
  if startswith sub s then Some 0
  else match s with "" => None | String _ s' => S <$> find sub s' end.
Proof. by destruct s. Qed.

Lemma find_app_is_Some sub a b : is_Some (find sub (a +:+ sub +:+ b)).
Proof.
  induction a as [|x a IH].
  - simpl. rewrite find_unfold, startswith_app. by eexists.
  - rewrite find_unfold. destruct (startswith sub _); [by eexists |].
    simpl. destruct IH as [i ->]. by eexists.
Qed.

Lemma find_char_app c a s :
  lacks c a = true -> find (String c "") (a +:+ String c s) = Some (String.length a).
Proof.
  induction a as [|x a IH]; intros H.
  - simpl. by rewrite find_unfold, startswith_cons, startswith_nil.
  - apply lacks_cons in H as [Hx Ha]. cbn [String.append]. rewrite find_unfold.
    rewrite startswith_head_ne by congruence. rewrite IH by done. done.
Qed.

Lemma rfind_char_none c s : lacks c s = true -> rfind (String c "") s = None.
Proof.
  induction s as [|x s IH]; intros H; [done |].
  apply lacks_cons in H as [Hx Hs]. cbn [rfind]. rewrite IH by done.
  by rewrite startswith_head_ne by congruence.
Qed.

Lemma rfind_char_app c a t :
  lacks c t = true ->
  rfind (String c "") (a +:+ String c t) = Some (String.length a).
Proof.
  intros Ht. induction a as [|x a IH].
  - cbn [String.append rfind]. rewrite rfind_char_none by done.
    by rewrite startswith_cons, startswith_nil.
  - cbn [String.append rfind]. by rewrite IH.
Qed.

Lemma slice_app_middle a m b :
  slice (String.length a) (String.length a + String.length m) (a +:+ m +:+ b) = m.
Proof.
  unfold slice. replace (_ + _ - _) with (String.length m) by lia.
  induction a as [|x a IH]; simpl; [| done].
  clear. induction m as [|y m IH]; simpl; [by destruct b | by rewrite IH].
Qed.

Lemma drop_app_length a b : drop (String.length a) (a +:+ b) = b.
Proof. induction a as [|x a IH]; simpl; [by destruct b | done]. Qed.

(** *** Splitting *)

Definition cons_first (a : string) (l : list string) : list string :=
  match l with
  | p :: ps => (a +:+ p) :: ps
  | [] => [a]
  end.

Lemma split_from_nonempty sep k s : split_from sep k s <> [].
Proof.
  revert k. induction s as [|c s IH]; intros k; simpl; [done |].
  destruct k; [| done].
  destruct (startswith sep _); [done |].
  by destruct (split_from sep 0 s).
Qed.

Lemma split_step sep c s :
  startswith sep (String c s) = false ->
  split_from sep 0 (String c s) = cons_first (String c "") (split_from sep 0 s).
Proof. intros H. cbn [split_from]. rewrite H. by destruct (split_from sep 0 s). Qed.

Lemma cons_first_app a b l : cons_first a (cons_first b l) = cons_first (a +:+ b) l.
Proof. destruct l; simpl; [done | by rewrite sapp_assoc]. Qed.

(** A stretch without the separator's first character is passed whole. *)
Lemma split_lacking x sep a s :
  lacks x a = true ->
  split_from (String x sep) 0 (a +:+ s) = cons_first a (split_from (String x sep) 0 s).
Proof.
  induction a as [|c a IH]; intros H.
  - simpl. pose proof (split_from_nonempty (String x sep) 0 s) as Hne.
    by destruct (split_from _ 0 s).
  - apply lacks_cons in H as [Hc Ha]. cbn [String.append].
    rewrite split_step by (apply startswith_head_ne; congruence).
    rewrite IH by done. by rewrite cons_first_app.
Qed.

End PyStrFacts.

(** ** [parse_json_blob] on fenced output *)

Module BlobFacts.
Import PyStr PyStrFacts Blob.

Ltac startswith_chars :=
  cbn [String.append] in *;
  rewrite ?startswith_cons_eqb, ?startswith_nil in *;
  simpl Ascii.eqb in *;
  rewrite ?andb_false_r, ?andb_true_r, ?andb_false_l, ?andb_true_l in *.

Lemma contains_false_cons sub c s :
  contains sub (String c s) = false ->
  startswith sub (String c s) = false /\ contains sub s = false.
Proof.
  unfold contains. rewrite find_unfold. intros H.
  apply bool_decide_eq_false in H.
  destruct (startswith sub (String c s)).
  - exfalso. apply H. by eexists.
  - split; [done |]. apply bool_decide_eq_false. intros [i Hi]. apply H.
    rewrite Hi. by eexists.
Qed.

Lemma lstrip_fence pre Y : lstrip (pre +:+ fence +:+ Y) = lstrip pre +:+ fence +:+ Y.
Proof. unfold fence. cbn [String.append]. by rewrite lstrip_app_nonspace. Qed.

Lemma rstrip_fence post : rstrip (fence +:+ post) = fence +:+ rstrip post.
Proof. unfold fence. cbn [String.append]. by rewrite !rstrip_nonspace. Qed.

Lemma strip_fenced pre X post :
  strip (pre +:+ fence +:+ X +:+ fence +:+ post)
  = lstrip pre +:+ fence +:+ X +:+ fence +:+ rstrip post.
Proof.
  unfold strip. rewrite lstrip_fence.
  rewrite <- (rstrip_fence post).
  set (T := fence +:+ post).
  rewrite <- (sapp_assoc fence X T), <- (sapp_assoc (lstrip pre) (fence +:+ X) T).
  rewrite rstrip_app_keep; [by rewrite !sapp_assoc |].
  unfold T. by rewrite rstrip_fence.
Qed.

Lemma split_at_fence s : split_from fence 0 (fence +:+ s) = "" :: split_from fence 0 s.
Proof.
  unfold fence. cbn [String.append split_from].
  rewrite !startswith_cons, startswith_nil. done.
Qed.

Lemma startswith_app_long p x t :
  String.length p <= String.length x -> startswith p (x +:+ t) = startswith p x.
Proof.
  revert x. induction p as [|a p IH]; intros x Hlen; [by rewrite !startswith_nil |].
  destruct x as [|c x]; [simpl in Hlen; lia |].
  cbn [String.append]. rewrite !startswith_cons_eqb. rewrite IH; [done |].
  simpl in Hlen. lia.
Qed.

Lemma contains_lstrip_app sub s t :
  contains sub (s +:+ t) = false -> contains sub (lstrip s +:+ t) = false.
Proof.
  induction s as [|c s IH]; [done |]. cbn [String.append lstrip]. intros H.
  destruct (isspace c); [| done]. apply IH. by apply contains_false_cons in H as [_ ?].
Qed.

(** When no fence starts inside [a], the text before the fence that
    follows it is the first part. *)
Lemma split_before_fence a s :
  contains fence (a +:+ "``") = false ->
  split_from fence 0 (a +:+ fence +:+ s) = a :: split_from fence 0 s.
Proof.
  induction a as [|c a IH]; intros H; [apply split_at_fence |].
  cbn [String.append] in H. apply contains_false_cons in H as [H0 H1].
  cbn [String.append]. rewrite split_step.
  - by rewrite IH.
  - replace (String c (a +:+ fence +:+ s)) with (String c (a +:+ "``") +:+ String backtick s)
      by (cbn [String.append]; by rewrite sapp_assoc).
    rewrite startswith_app_long; [done |].
    cbn [String.length]. rewrite slength_app. unfold fence. cbn [String.length]. lia.
Qed.

Lemma drop_json_tag lead Z :
  lacks "{" lead = true ->
  exists lead',
    lacks "{" lead' = true /\
    (if startswith "json" (lead +:+ String "{" Z)
     then drop 4 (lead +:+ String "{" Z) else lead +:+ String "{" Z)
    = lead' +:+ String "{" Z.
Proof.
  intros Hl. destruct (startswith "json" _) eqn:E; [| by exists lead].
  destruct lead as [|a [|b [|c [|d lead]]]]; startswith_chars; try done.
  exists lead. split; [| done].
  simpl in Hl. by repeat (apply andb_true_iff in Hl as [_ Hl]).
Qed.

Lemma braces_object lead inner trail :
  lacks "{" lead = true -> lacks "}" trail = true ->
  braces (lead +:+ ("{" +:+ inner +:+ "}") +:+ trail) = "{" +:+ inner +:+ "}".
Proof.
  intros Hl Ht. unfold braces. cbn [String.append].
  rewrite find_char_app by done.
  assert (Hr : rfind "}" (lead +:+ String "{" ((inner +:+ "}") +:+ trail))
               = Some (String.length (lead +:+ String "{" inner))).
  { assert (Heq : lead +:+ String "{" ((inner +:+ "}") +:+ trail)
                   = (lead +:+ String "{" inner) +:+ String "}" trail).
    { rewrite !sapp_assoc. by cbn [String.append]. }
    rewrite Heq. by apply rfind_char_app. }
  rewrite Hr.
  replace (String.length (lead +:+ String "{" inner) + 1)
    with (String.length lead + String.length (String "{" (inner +:+ "}"))).
  - apply (slice_app_middle lead (String "{" (inner +:+ "}")) trail).
  - rewrite !slength_app. simpl. rewrite slength_app. simpl. lia.
Qed.

(** The de-fencing steps on a fenced object whose opening fence is the
    first fence of the text and whose closing fence is the next one:
    the fenced content, with the tag removed when it is [json]. *)
Lemma defenced_fenced pre lead inner trail post :
  contains fence (pre +:+ "``") = false ->
  contains fence ((lead +:+ ("{" +:+ inner +:+ "}") +:+ trail) +:+ "``") = false ->
  lacks "{" lead = true ->
  exists lead',
    lacks "{" lead' = true /\
    defenced (pre +:+ fence +:+ (lead +:+ ("{" +:+ inner +:+ "}") +:+ trail) +:+ fence +:+ post)
    = lead' +:+ ("{" +:+ inner +:+ "}") +:+ trail.
Proof.
  intros Hpre Hcontent Hl.
  destruct (drop_json_tag lead ((inner +:+ "}") +:+ trail) Hl) as (lead' & Hl' & Hd).
  exists lead'. split; [done |].
  unfold defenced. cbv zeta. rewrite strip_fenced.
  set (content := lead +:+ ("{" +:+ inner +:+ "}") +:+ trail) in *.
  assert (Hc : contains fence (lstrip pre +:+ fence +:+ content +:+ fence +:+ rstrip post) = true).
  { unfold contains. apply bool_decide_eq_true_2, find_app_is_Some. }
  rewrite !Hc.
  assert (Hs : split fence (lstrip pre +:+ fence +:+ content +:+ fence +:+ rstrip post)
          = lstrip pre :: content :: split_from fence 0 (rstrip post)).
  { unfold split. rewrite split_before_fence by (by apply contains_lstrip_app).
    by rewrite split_before_fence. }
  rewrite Hs. cbn [length nth].
  rewrite bool_decide_eq_true_2
    by (pose proof (split_from_nonempty fence 0 (rstrip post));
        destruct (split_from fence 0 (rstrip post)); [done | simpl; lia]).
  exact Hd.
Qed.

End BlobFacts.

(** ** What [parse_json_blob] decodes *)

Module BlobSpec.
Import PyStr PyStrFacts Blob BlobFacts.

(** [first_at c s i]: position [i] is the first one of [s] holding [c];
    [last_at c s j]: position [j] is the last one. *)
Definition first_at (c : ascii) (s : string) (i : nat) : Prop :=
  String.get i s = Some c /\ forall k, k < i -> String.get k s <> Some c.

Definition last_at (c : ascii) (s : string) (j : nat) : Prop :=
  String.get j s = Some c /\ forall k, j < k -> String.get k s <> Some c.

Lemma find_first_at c s i : first_at c s i -> find (String c "") s = Some i.
Proof.
  revert i. induction s as [|x s IH]; intros i [Hi Hlt].
  - by destruct i.
  - rewrite find_unfold, startswith_cons_eqb, startswith_nil, andb_true_r.
    destruct i as [|i].
    + simpl in Hi. injection Hi as ->. by rewrite Ascii.eqb_refl.
    + assert (Hx : x <> c).
      { intros ->. by apply (Hlt 0); [lia |]. }
      rewrite Ascii.eqb_sym. apply Ascii.eqb_neq in Hx. rewrite Hx.
      rewrite (IH i); [done |]. split; [done |].
      intros k Hk. apply (Hlt (S k)). lia.
Qed.

Lemma lacks_get c s : (forall k, String.get k s <> Some c) -> lacks c s = true.
Proof.
  induction s as [|x s IH]; intros H; [done |].
  simpl. apply andb_true_iff. split.
  - apply negb_true_iff, Ascii.eqb_neq. intros ->. by apply (H 0).
  - apply IH. intros k. apply (H (S k)).
Qed.

Lemma rfind_last_at c s j : last_at c s j -> rfind (String c "") s = Some j.
Proof.
  revert j. induction s as [|x s IH]; intros j [Hj Hgt].
  - by destruct j.
  - cbn [rfind]. destruct j as [|j].
    + simpl in Hj. injection Hj as ->.
      rewrite rfind_char_none.
      * by rewrite startswith_cons, startswith_nil.
      * apply lacks_get. intros k. apply (Hgt (S k)). lia.
    + rewrite (IH j); [done |]. split; [done |].
      intros k Hk. apply (Hgt (S k)). lia.
Qed.

Section Claims.
Context {J : Type} (json_loads : string -> option J).

(** C1 (amended).  When the text holds a JSON object between two code
    fences, of which the opening one is the first triple backtick of the
    text and the closing one the next (no triple backtick starts before
    the opening fence, and none inside the fenced content, so none in
    the object's own text), and the fenced content has no opening brace
    before the object (so with or without a leading [json]) and no
    closing brace after it, then [parse_json_blob] decodes exactly the
    enclosed object.  In general the text decoded is the part of the
    de-fenced text from its first opening brace to its last closing
    brace. *)
Theorem parse_json_blob_fenced_object :
  (forall pre lead inner trail post : string,
      contains fence (pre +:+ "``") = false ->
      contains fence ((lead +:+ ("{" +:+ inner +:+ "}") +:+ trail) +:+ "``") = false ->
      lacks "{" lead = true -> lacks "}" trail = true ->
      parse_json_blob json_loads
        (pre +:+ fence +:+ (lead +:+ ("{" +:+ inner +:+ "}") +:+ trail) +:+ fence +:+ post)
      = json_loads ("{" +:+ inner +:+ "}"))
  /\ (forall (text : string) (i j : nat),
        first_at "{" (defenced text) i ->
        last_at "}" (defenced text) j ->
        parse_json_blob json_loads text
        = json_loads (slice i (j + 1) (defenced text))).
Proof.
  split.
  - intros pre lead inner trail post Hpre Hcontent Hl Ht.
    unfold parse_json_blob.
    destruct (defenced_fenced pre lead inner trail post) as (lead' & Hl' & ->); try done.
    by rewrite braces_object.
  - intros text i j Hi Hj. unfold parse_json_blob, braces.
    by rewrite (find_first_at _ _ _ Hi), (rfind_last_at _ _ _ Hj).
Qed.
End Claims.

Definition nl : string := String LF "".

Definition fenced_example : string :=
  "Here is the card:" +:+ nl +:+ "```json" +:+ nl
  +:+ Json.q "{'first_name': 'Ann', 'phone': '+1 ``555``'}" +:+ nl +:+ "```" +:+ nl.

(** A reply whose prose quotes a word in single backticks and ends with
    a second fenced block. *)
Definition quoted_example : string :=
  "Run `jq` on this:" +:+ nl +:+ "```" +:+ nl
  +:+ Json.q "{'company': 'Acme'}" +:+ nl +:+ "```" +:+ nl
  +:+ "and then on" +:+ nl +:+ "```" +:+ nl +:+ "{}" +:+ nl +:+ "```".

Lemma parse_json_blob_fenced_object_witness :
  parse_json_blob Json.loads fenced_example
  = Some (Json.Object [("first_name", Json.Str "Ann"); ("phone", Json.Str "+1 ``555``")])
  /\ parse_json_blob Json.loads quoted_example
     = Some (Json.Object [("company", Json.Str "Acme")])
  /\ parse_json_blob Json.loads (Json.q "noise } {'a': [1, 2]} trailing")
     = Json.loads (slice 8 21 (Json.q "noise } {'a': [1, 2]} trailing")).
Proof.
  destruct (parse_json_blob_fenced_object Json.loads) as [Hfenced Hgeneral].
  split; [| split].
  - exact (Hfenced ("Here is the card:" +:+ nl) ("json" +:+ nl)
             (Json.q "'first_name': 'Ann', 'phone': '+1 ``555``'") nl nl
             eq_refl eq_refl eq_refl eq_refl).
  - exact (Hfenced ("Run `jq` on this:" +:+ nl) nl (Json.q "'company': 'Acme'") nl
             (nl +:+ "and then on" +:+ nl +:+ "```" +:+ nl +:+ "{}" +:+ nl +:+ "```")
             eq_refl eq_refl eq_refl eq_refl).
  - apply (Hgeneral (Json.q "noise } {'a': [1, 2]} trailing") 8 20).
    + split; [reflexivity |].
      intros k Hk. do 8 (destruct k as [|k]; [discriminate |]). lia.
    + split; [reflexivity |].
      intros k Hk. do 21 (destruct k as [|k]; [lia |]).
      do 9 (destruct k as [|k]; [discriminate |]). discriminate.
Defined.

(** C1 as stated, without the restriction on the object's text, fails:
    a fenced object whose string value holds a triple backtick is cut at
    that backtick, and the decoder raises. *)
Lemma parse_json_blob_fence_inside_object :
  ~ (forall pre lead inner trail post : string,
        lacks backtick pre = true ->
        lacks backtick lead = true -> lacks "{" lead = true ->
        lacks backtick trail = true -> lacks "}" trail = true ->
        parse_json_blob Json.loads
          (pre +:+ fence +:+ (lead +:+ ("{" +:+ inner +:+ "}") +:+ trail) +:+ fence +:+ post)
        = Json.loads ("{" +:+ inner +:+ "}")).
Proof.
  intros H.
  specialize (H "" ("json" +:+ nl) (Json.q "'a': '```'") nl ""
                eq_refl eq_refl eq_refl eq_refl eq_refl).
  vm_compute in H. discriminate H.
Qed.

Example fence_inside_object_decodes :
  Json.loads (Json.q "{'a': '```'}") = Some (Json.Object [("a", Json.Str "```")]).
Proof. reflexivity. Qed.

Example fence_inside_object_raises :
  parse_json_blob Json.loads ("```json" +:+ nl +:+ Json.q "{'a': '```'}" +:+ nl +:+ "```") = None.
Proof. reflexivity. Qed.

End BlobSpec.

(** ** Reading back what the writer wrote *)

Module CsvFacts.
Import PyStr PyStrFacts Csv.

(** [fits n f]: a field buffer holding [n] characters can take all of [f]. *)
Definition fits (n : N) (f : string) : bool :=
  (n + N.of_nat (String.length f) <=? field_limit)%N.

Lemma fits_nil n : (n <= field_limit)%N -> fits n "" = true.
Proof. intros H. unfold fits. simpl. apply N.leb_le. lia. Qed.

Lemma fits_cons n c f :
  fits n (String c f) = negb (field_limit <=? n)%N && fits (n + 1) f.
Proof.
  unfold fits. cbn [String.length].
  destruct (N.leb_spec field_limit n) as [H|H]; simpl.
  - apply N.leb_gt. lia.
  - f_equal. lia.
Qed.

Lemma rev_app_app f b c : String.rev_app f b +:+ c = String.rev_app f (b +:+ c).
Proof.
  revert b. induction f as [|x f IH]; intros b; cbn [String.rev_app]; [done |].
  by rewrite IH.
Qed.

Lemma rev_rev_app f b : String.rev (String.rev_app f b) = String.rev b +:+ f.
Proof.
  unfold String.rev. revert b.
  induction f as [|x f IH]; intros b; cbn [String.rev_app].
  - by rewrite sapp_nil_r.
  - rewrite IH. cbn [String.rev_app]. by rewrite !rev_app_app.
Qed.

Lemma special_false c :
  special c = false ->
  Ascii.eqb c comma = false /\ Ascii.eqb c dquote = false /\ is_newline c = false.
Proof.
  unfold special, is_newline. intros H.
  repeat (apply orb_false_iff in H as [H ?]). repeat split; try done.
  apply orb_false_iff. done.
Qed.

Lemma ends_line_not_newline c X : is_newline c = false -> ends_line c X = false.
Proof.
  unfold is_newline, ends_line. intros [-> ->]%orb_false_iff. done.
Qed.

Lemma file_lines_nonempty X : X <> "" -> file_lines X <> [].
Proof.
  destruct X as [|c X]; [done |]. intros _. cbn [file_lines].
  destruct (ends_line c X); [done |]. by destruct (file_lines X).
Qed.

(** A character that does not end its line is followed by the rest of
    that line. *)
Lemma read_rows_inline c X r acc :
  ends_line c X = false -> X <> "" ->
  read_rows (file_lines (String c X)) r acc
  = match parse_process_char r c with
    | inl e => inl e
    | inr r' => read_rows (file_lines X) r' acc
    end.
Proof.
  intros He HX. cbn [file_lines]. rewrite He.
  pose proof (file_lines_nonempty X HX) as Hne.
  destruct (file_lines X) as [|l ls]; [done |].
  cbn [cons_line read_rows]. by destruct (parse_process_char r c).
Qed.

(** Inside a quoted field every character but the quote is taken, line
    ends included. *)
Lemma read_rows_quoted c X fs buf n acc :
  Ascii.eqb c dquote = false -> X <> "" ->
  read_rows (file_lines (String c X)) (Reader IN_QUOTED_FIELD fs buf n) acc
  = match parse_add_char (Reader IN_QUOTED_FIELD fs buf n) c with
    | inl e => inl e
    | inr r' => read_rows (file_lines X) r' acc
    end.
Proof.
  intros Hc HX. destruct (ends_line c X) eqn:He.
  - cbn [file_lines]. rewrite He. cbn [read_rows].
    unfold parse_process_char. cbn [state]. rewrite Hc.
    unfold parse_add_char. cbn [field_len state fields field].
    by destruct (field_limit <=? n)%N.
  - rewrite read_rows_inline by done.
    unfold parse_process_char. cbn [state]. by rewrite Hc.
Qed.

Lemma app_not_nil a c X : a +:+ String c X <> "".
Proof. by destruct a. Qed.

Lemma quoted_body f fs buf n X acc :
  (n <= field_limit)%N ->
  read_rows (file_lines (double_quotes f +:+ String dquote X))
    (Reader IN_QUOTED_FIELD fs buf n) acc
  = if fits n f
    then read_rows (file_lines (String dquote X))
           (Reader IN_QUOTED_FIELD fs (String.rev_app f buf)
              (n + N.of_nat (String.length f))) acc
    else inl FieldLimit.
Proof.
  revert buf n. induction f as [|c f IH]; intros buf n Hn.
  - rewrite fits_nil by done. simpl. by rewrite N.add_0_r.
  - rewrite fits_cons. cbn [double_quotes].
    destruct (Ascii.eqb c dquote) eqn:Hc.
    + apply Ascii.eqb_eq in Hc as ->. cbn [String.append].
      rewrite read_rows_inline by (done || apply app_not_nil || by destruct f).
      unfold parse_process_char at 1. cbn [state]. rewrite Ascii.eqb_refl.
      rewrite read_rows_inline by (done || apply app_not_nil).
      unfold parse_process_char, set_state, parse_add_char.
      cbn [state fields field field_len]. rewrite Ascii.eqb_refl.
      destruct (N.leb_spec field_limit n) as [H|H]; [done |].
      cbn [state fields field field_len negb andb].
      rewrite IH by lia. cbn [String.rev_app String.length].
      by replace (n + 1 + N.of_nat (String.length f))%N
        with (n + N.of_nat (S (String.length f)))%N by lia.
    + cbn [String.append]. rewrite read_rows_quoted by (done || apply app_not_nil).
      unfold parse_add_char. cbn [state fields field field_len].
      destruct (N.leb_spec field_limit n) as [H|H]; [done |].
      cbn [negb andb]. rewrite IH by lia. cbn [String.rev_app String.length].
      by replace (n + 1 + N.of_nat (String.length f))%N
        with (n + N.of_nat (S (String.length f)))%N by lia.
Qed.

Lemma plain_body f fs buf n t X acc :
  needs_quotes f = false -> (n <= field_limit)%N ->
  read_rows (file_lines (f +:+ String t X)) (Reader IN_FIELD fs buf n) acc
  = if fits n f
    then read_rows (file_lines (String t X))
           (Reader IN_FIELD fs (String.rev_app f buf)
              (n + N.of_nat (String.length f))) acc
    else inl FieldLimit.
Proof.
  revert buf n. induction f as [|c f IH]; intros buf n Hp Hn.
  - rewrite fits_nil by done. simpl. by rewrite N.add_0_r.
  - rewrite fits_cons. cbn [needs_quotes] in Hp.
    apply orb_false_iff in Hp as [Hc Hp].
    apply special_false in Hc as (Hcomma & Hquote & Hnl).
    cbn [String.append].
    rewrite read_rows_inline by (by apply ends_line_not_newline || apply app_not_nil).
    unfold parse_process_char, parse_add_char. cbn [state fields field field_len].
    rewrite Hnl, Hcomma.
    destruct (N.leb_spec field_limit n) as [H|H]; [done |].
    cbn [negb andb]. rewrite IH by (done || lia). cbn [String.rev_app String.length].
    by replace (n + 1 + N.of_nat (String.length f))%N
      with (n + N.of_nat (S (String.length f)))%N by lia.
Qed.

Lemma read_delim s fs buf n X acc :
  s <> IN_QUOTED_FIELD -> s <> EAT_CRNL -> X <> "" ->
  read_rows (file_lines (String comma X)) (Reader s fs buf n) acc
  = read_rows (file_lines X) (Reader START_FIELD (String.rev buf :: fs) "" 0) acc.
Proof.
  intros H1 H2 HX. rewrite read_rows_inline by done.
  by destruct s.
Qed.

Lemma file_lines_terminator rest :
  file_lines (line_terminator +:+ rest) = line_terminator :: file_lines rest.
Proof.
  unfold line_terminator. cbn [String.append file_lines cons_line].
  unfold ends_line. rewrite startswith_cons, startswith_nil. done.
Qed.

Lemma read_eol s fs buf n rest acc :
  s = START_FIELD \/ s = IN_FIELD \/ s = QUOTE_IN_QUOTED_FIELD ->
  read_rows (file_lines (line_terminator +:+ rest)) (Reader s fs buf n) acc
  = read_rows (file_lines rest) fresh (reverse (String.rev buf :: fs) :: acc).
Proof.
  intros Hs. rewrite file_lines_terminator.
  by destruct Hs as [-> | [-> | ->]].
Qed.

Lemma read_empty_record rest acc :
  read_rows (file_lines (line_terminator +:+ rest)) fresh acc
  = read_rows (file_lines rest) fresh ([] :: acc).
Proof. by rewrite file_lines_terminator. Qed.

(** The state in which the text of a field leaves the parser. *)
Definition after (s0 : pstate) (f : string) : pstate :=
  if needs_quotes f then QUOTE_IN_QUOTED_FIELD
  else match f with "" => s0 | _ => IN_FIELD end.

Lemma field_body f s0 fs t X acc :
  s0 = START_RECORD \/ s0 = START_FIELD ->
  read_rows (file_lines (write_field f +:+ String t X)) (Reader s0 fs "" 0) acc
  = if fits 0 f
    then read_rows (file_lines (String t X))
           (Reader (after s0 f) fs (String.rev_app f "") (N.of_nat (String.length f))) acc
    else inl FieldLimit.
Proof.
  intros Hs0. unfold write_field, after. destruct (needs_quotes f) eqn:Hq.
  - cbn [String.append]. rewrite sapp_assoc. cbn [String.append].
    rewrite read_rows_inline by (done || apply app_not_nil).
    assert (parse_process_char (Reader s0 fs "" 0) dquote
            = inr (Reader IN_QUOTED_FIELD fs "" 0)) as ->
      by (by destruct Hs0 as [-> | ->]).
    rewrite quoted_body by done.
    destruct (fits 0 f); [| done].
    by rewrite read_rows_inline.
  - destruct f as [|c f].
    + by rewrite fits_nil.
    + cbn [needs_quotes] in Hq. apply orb_false_iff in Hq as [Hc Hq].
      apply special_false in Hc as (Hcomma & Hquote & Hnl).
      cbn [String.append].
      rewrite read_rows_inline by (by apply ends_line_not_newline || apply app_not_nil).
      assert (parse_process_char (Reader s0 fs "" 0) c
              = inr (Reader IN_FIELD fs (String c "") 1)) as ->.
      { destruct Hs0 as [-> | ->]; unfold parse_process_char; cbn [state];
          by rewrite Hnl, Hquote, Hcomma. }
      rewrite plain_body by done. rewrite fits_cons.
      cbn [String.rev_app String.length].
      replace (1 + N.of_nat (String.length f))%N
        with (N.of_nat (S (String.length f))) by lia.
      done.
Qed.

Lemma after_cases s0 f :
  s0 = START_RECORD \/ s0 = START_FIELD ->
  after s0 f = s0 /\ f = "" \/ after s0 f = IN_FIELD \/ after s0 f = QUOTE_IN_QUOTED_FIELD.
Proof.
  intros Hs0. unfold after. destruct (needs_quotes f); [by right; right |].
  destruct f; [by left | by right; left].
Qed.

Lemma read_join rest_fs f s0 done acc rest :
  s0 = START_FIELD \/ (s0 = START_RECORD /\ (f <> "" \/ rest_fs <> [])) ->
  read_rows (file_lines (join_fields (f :: rest_fs) +:+ line_terminator +:+ rest))
    (Reader s0 done "" 0) acc
  = if forallb (fits 0) (f :: rest_fs)
    then read_rows (file_lines rest) fresh
           (reverse (reverse (f :: rest_fs) ++ done) :: acc)
    else inl FieldLimit.
Proof.
  revert f s0 done. induction rest_fs as [|f2 fs' IH]; intros f s0 done Hs0;
    assert (Hs : s0 = START_RECORD \/ s0 = START_FIELD)
      by (destruct Hs0 as [-> | [-> _]]; auto).
  - cbn [join_fields forallb]. rewrite andb_true_r.
    unfold line_terminator at 1. cbn [String.append].
    rewrite field_body by done.
    destruct (fits 0 f); [| done].
    change (String CR (String LF rest)) with (line_terminator +:+ rest).
    rewrite read_eol.
    + rewrite (rev_rev_app f ""). by change (String.rev "" +:+ f) with f.
    + destruct (after_cases s0 f Hs) as [[Ha Hf] | [Ha | Ha]]; rewrite Ha; auto.
      by destruct Hs0 as [-> | [-> [? | ?]]]; auto.
  - change (join_fields (f :: f2 :: fs'))
      with (write_field f +:+ String comma (join_fields (f2 :: fs'))).
    rewrite sapp_assoc. cbn [String.append].
    rewrite field_body by done.
    cbn [forallb]. destruct (fits 0 f); [| done]. cbn [andb].
    rewrite read_delim.
    + rewrite (rev_rev_app f "").
      change (String.rev "" +:+ f) with f.
      rewrite IH by auto. cbn [forallb].
      destruct (fits 0 f2 && forallb (fits 0) fs'); [| done].
      do 3 f_equal. rewrite (reverse_cons _ f), <- (assoc_L (++)). done.
    + destruct (after_cases s0 f Hs) as [[-> _] | [-> | ->]]; try done.
      by destruct Hs as [-> | ->].
    + destruct (after_cases s0 f Hs) as [[-> _] | [-> | ->]]; try done.
      by destruct Hs as [-> | ->].
    + rewrite <- sapp_assoc. apply app_not_nil || (unfold line_terminator; by destruct (join_fields (f2 :: fs'))).
Qed.

Lemma read_writerow fs rest acc :
  read_rows (file_lines (writerow fs +:+ rest)) fresh acc
  = if forallb (fits 0) fs
    then read_rows (file_lines rest) fresh (fs :: acc)
    else inl FieldLimit.
Proof.
  destruct fs as [|f fs].
  - cbn [writerow join_fields forallb String.append]. apply read_empty_record.
  - assert (Hgen : f <> "" \/ fs <> [] ->
        read_rows (file_lines ((join_fields (f :: fs) +:+ line_terminator) +:+ rest)) fresh acc
        = if forallb (fits 0) (f :: fs)
          then read_rows (file_lines rest) fresh ((f :: fs) :: acc)
          else inl FieldLimit).
    { intros H. rewrite sapp_assoc. unfold fresh. rewrite read_join by auto.
      by rewrite app_nil_r, reverse_involutive. }
    destruct f as [|c f]; [destruct fs as [|f2 fs] |].
    + cbn [writerow String.append].
      rewrite read_rows_inline by done.
      change (parse_process_char fresh dquote)
        with (inr (B := reader) (A := error) (Reader IN_QUOTED_FIELD [] "" 0)).
      cbv iota beta. rewrite read_rows_inline by done.
      change (parse_process_char (Reader IN_QUOTED_FIELD [] "" 0) dquote)
        with (inr (B := reader) (A := error) (Reader QUOTE_IN_QUOTED_FIELD [] "" 0)).
      cbv iota beta. rewrite read_eol by auto. done.
    + apply Hgen. by right.
    + apply Hgen. by left.
Qed.

(** The text of the rows, one after the other. *)
Definition write_rows (rows : list (list string)) : string :=
  foldr (fun fs out => writerow fs +:+ out) "" rows.

Definition rows_fit (rows : list (list string)) : bool :=
  forallb (forallb (fits 0)) rows.

Lemma read_write_rows rows acc :
  read_rows (file_lines (write_rows rows)) fresh acc
  = if rows_fit rows then inr (reverse acc ++ rows)%list else inl FieldLimit.
Proof.
  revert acc. induction rows as [|fs rows IH]; intros acc.
  - simpl. by rewrite app_nil_r.
  - cbn [write_rows foldr rows_fit forallb]. rewrite read_writerow.
    destruct (forallb (fits 0) fs); [| done]. cbn [andb].
    fold (write_rows rows). rewrite IH. fold (rows_fit rows).
    destruct (rows_fit rows); [| done].
    by rewrite reverse_cons, <- (assoc_L (++)).
Qed.

(** Reading what the writer wrote gives the rows back, unless a field is
    longer than the field size limit, in which case the reader raises. *)
Lemma reader_rows_write_rows rows :
  reader_rows (write_rows rows)
  = if rows_fit rows then inr rows else inl FieldLimit.
Proof. unfold reader_rows. by rewrite read_write_rows. Qed.

End CsvFacts.

(** ** The capture time that is returned *)

Module CaptureFacts.
Import PyStr PyStrFacts Capture.

Lemma is_digit_digit n : Json.is_digit (digit n) = true.
Proof.
  unfold Json.is_digit, digit.
  assert (H : (n mod 10 < 10)%N) by (by apply N.mod_lt).
  set (k := (n mod 10)%N) in *. clearbody k.
  rewrite N_ascii_embedding by lia.
  apply andb_true_iff. split; apply N.leb_le; lia.
Qed.

Lemma fixed_width_app w n acc : fixed_width w n acc = fixed_width w n "" +:+ acc.
Proof.
  revert n acc. induction w as [|w IH]; intros n acc; [done |].
  cbn [fixed_width]. rewrite IH, (IH _ (String _ "")).
  by rewrite sapp_assoc.
Qed.

Fixpoint digits_pat (w : nat) : string :=
  match w with
  | 0 => ""
  | S w' => String "d" (digits_pat w')
  end.

Lemma digits_pat_snoc w pat : digits_pat (S w) +:+ pat = digits_pat w +:+ String "d" pat.
Proof. induction w as [|w IH]; [done |]. cbn [digits_pat String.append] in *. by rewrite IH. Qed.

Lemma matches_fixed_width w n pat s :
  matches (digits_pat w +:+ pat) (fixed_width w n "" +:+ s) = matches pat s.
Proof.
  revert n pat s. induction w as [|w IH]; intros n pat s; [done |].
  rewrite digits_pat_snoc. cbn [fixed_width].
  rewrite fixed_width_app, sapp_assoc, IH.
  cbn [String.append matches]. by rewrite is_digit_digit.
Qed.

Lemma zero_padded_in_range w n : (n < 10 ^ N.of_nat w)%N -> zero_padded w n = fixed_width w n "".
Proof. intros H. unfold zero_padded. apply N.ltb_lt in H. by rewrite H. Qed.

Lemma isoformat_utc_is_iso d : in_range d -> is_iso_timestamp (isoformat_utc d) = true.
Proof.
  intros (Hy & Hm & Hd & Hh & Hmi & Hs & Hus).
  unfold isoformat_utc, is_iso_timestamp.
  rewrite (zero_padded_in_range 4 (year d))
    by (change (10 ^ N.of_nat 4)%N with 10000%N; lia).
  rewrite (zero_padded_in_range 2 (month d)), (zero_padded_in_range 2 (day d)),
    (zero_padded_in_range 2 (hour d)), (zero_padded_in_range 2 (minute d)),
    (zero_padded_in_range 2 (second d))
    by (change (10 ^ N.of_nat 2)%N with 100%N; lia).
  rewrite (zero_padded_in_range 6 (microsecond d))
    by (change (10 ^ N.of_nat 6)%N with 1000000%N; lia).
  destruct (microsecond d =? 0)%N.
  - apply orb_true_iff. left.
    change "dddd-dd-ddTdd:dd:dd+00:00"
      with (digits_pat 4 +:+ "-" +:+ digits_pat 2 +:+ "-" +:+ digits_pat 2 +:+ "T"
            +:+ digits_pat 2 +:+ ":" +:+ digits_pat 2 +:+ ":" +:+ digits_pat 2 +:+ "+00:00").
    by repeat (rewrite matches_fixed_width; cbn [String.append matches Ascii.eqb Bool.eqb andb]).
  - apply orb_true_iff. right.
    change "dddd-dd-ddTdd:dd:dd.dddddd+00:00"
      with (digits_pat 4 +:+ "-" +:+ digits_pat 2 +:+ "-" +:+ digits_pat 2 +:+ "T"
            +:+ digits_pat 2 +:+ ":" +:+ digits_pat 2 +:+ ":" +:+ digits_pat 2 +:+ "."
            +:+ digits_pat 6 +:+ "+00:00").
    by repeat (rewrite matches_fixed_width; cbn [String.append matches Ascii.eqb Bool.eqb andb]).
Qed.

Section Facts.
Context (image_exif : list Byte.byte -> exif_read)
        (TAGS : gmap N string)
        (strptime : string -> option datetime)
        (now : datetime).

#[local] Abbreviation capture_of := (capture_of TAGS strptime).
#[local] Abbreviation scan_items := (scan_items TAGS strptime).
#[local] Abbreviation extract_capture_datetime :=
  (extract_capture_datetime image_exif TAGS strptime now).

Lemma scan_items_cons item rest :
  scan_items (item :: rest)
  = match capture_of item with
    | Some d => Some (isoformat_utc d)
    | None => scan_items rest
    end.
Proof.
  destruct item as [tag_id value]. unfold capture_of. cbn [scan_items fst snd].
  destruct (is_datetime_tag _); [| done].
  destruct value as [s|]; cbn [parse_value]; [| done].
  by destruct (strptime s).
Qed.



Lemma scan_items_cases items :
  scan_items items = None \/
  exists s d, strptime s = Some d /\ scan_items items = Some (isoformat_utc d).
Proof.
  induction items as [|[tag_id value] rest IH]; [by left |].
  rewrite scan_items_cons. unfold capture_of. cbn [fst snd].
  destruct (is_datetime_tag _); [| done].
  destruct value as [s|]; [| done].
  destruct (strptime s) as [d|] eqn:Hs; [| done].
  right. by exists s, d.
Qed.







(** C10.  Whatever the bytes are and whatever the image library and
    [strptime] do with them, raising included, [extract_capture_datetime]
    returns normally, and what it returns is an ISO timestamp. *)
Theorem extract_capture_datetime_total (image_bytes : list Byte.byte) :
  (forall s d, strptime s = Some d -> in_range d) ->
  in_range now ->
  exists stamp,
    extract_capture_datetime image_bytes = inr stamp
    /\ is_iso_timestamp stamp = true.
Proof.
  intros Hparsed Hnow.
  unfold extract_capture_datetime, read_capture.
  destruct (image_exif image_bytes) as [|items complete].
  - exists (isoformat_utc now). split; [done |]. by apply isoformat_utc_is_iso.
  - destruct (scan_items_cases items) as [-> | (s & d & Hs & ->)].
    + exists (isoformat_utc now). split; [by destruct complete |].
      by apply isoformat_utc_is_iso.
    + exists (isoformat_utc d). split; [done |].
      apply isoformat_utc_is_iso. by apply (Hparsed s).
Qed.

End Facts.

(** *** A concrete library, for running the function *)

Definition in_rangeb (d : datetime) : bool :=
  ((1 <=? year d) && (year d <=? 9999) && (1 <=? month d) && (month d <=? 12)
   && (1 <=? day d) && (day d <=? 31) && (hour d <? 24) && (minute d <? 60)
   && (second d <? 60) && (microsecond d <? 1000000))%N.

Lemma in_rangeb_in_range d : in_rangeb d = true -> in_range d.
Proof.
  unfold in_rangeb, in_range. rewrite !andb_true_iff, !N.leb_le, !N.ltb_lt. tauto.
Qed.

Fixpoint number (s : string) (acc : N) : N :=
  match s with
  | "" => acc
  | String c s' => number s' (10 * acc + (N_of_ascii c - 48))
  end.

(** [strptime] for the pattern of line 130 on zero-padded input. *)
Definition strptime_padded (s : string) : option datetime :=
  if matches "dddd:dd:dd dd:dd:dd" s then
    let d := DateTime (number (substring 0 4 s) 0) (number (substring 5 2 s) 0)
               (number (substring 8 2 s) 0) (number (substring 11 2 s) 0)
               (number (substring 14 2 s) 0) (number (substring 17 2 s) 0) 0 in
    if in_rangeb d then Some d else None
  else None.

Lemma strptime_padded_in_range s d : strptime_padded s = Some d -> in_range d.
Proof.
  unfold strptime_padded. destruct (matches _ s); [| done].
  destruct (in_rangeb _) eqn:Hr; [| done].
  intros [= <-]. by apply in_rangeb_in_range.
Qed.

(** An image library that finds a camera model and a date in every
    non-empty input and cannot open the empty one. *)
Definition sample_exif (image_bytes : list Byte.byte) : exif_read :=
  match image_bytes with
  | [] => CannotOpen
  | _ => Entries [(272%N, ExifStr "X100"); (36867%N, ExifStr "not a date");
                  (306%N, ExifStr "2024:03:09 07:05:00")] true
  end.

Definition sample_now : datetime := DateTime 2026 11 3 22 50 0 123456.


Lemma extract_capture_datetime_total_witness :
  exists stamp,
    extract_capture_datetime sample_exif datetime_tags strptime_padded sample_now [Byte.x01]
    = inr stamp
    /\ is_iso_timestamp stamp = true.
Proof.
  apply (extract_capture_datetime_total sample_exif datetime_tags strptime_padded
           sample_now [Byte.x01]).
  - exact strptime_padded_in_range.
  - apply in_rangeb_in_range. reflexivity.
Defined.

End CaptureFacts.

(** ** The record store as a CSV text *)

Module StoreFacts.
Import PyStr PyStrFacts Csv CsvFacts App.
#[local] Open Scope M_scope.

(** The fields of a record in column order, as the writer takes them. *)
Definition row_of (record : gmap string string) : list string :=
  (fun key => default "" (record !! key)) <$> COLUMNS.

(** The text of a data file holding exactly [records]. *)
Definition store_text (records : list (gmap string string)) : string :=
  header_row +:+ write_rows (row_of <$> records).

Definition has_columns (record : gmap string string) : Prop :=
  dom record = list_to_set COLUMNS.

(** Every value is within the reader's field size limit. *)
Definition within_limit (record : gmap string string) : Prop :=
  map_Forall (fun _ v => (N.of_nat (String.length v) <= field_limit)%N) record.

Lemma NoDup_COLUMNS : NoDup COLUMNS.
Proof. apply (bool_decide_unpack (NoDup COLUMNS)). by vm_compute. Qed.

Lemma dict_to_list_columns record :
  dom record ⊆ list_to_set COLUMNS -> dict_to_list record = inr (row_of record).
Proof. intros H. unfold dict_to_list. by rewrite bool_decide_eq_true_2. Qed.

Lemma written_columns records :
  Forall (fun r => dom r ⊆ list_to_set COLUMNS) records ->
  written records = (write_rows (row_of <$> records), None).
Proof.
  induction 1 as [|r rs Hr _ IH]; [done |].
  cbn [written]. rewrite dict_to_list_columns by done. by rewrite IH.
Qed.

Lemma zip_fmap_self {A B} (f : A -> B) (l : list A) :
  zip l (f <$> l) = (fun x => (x, f x)) <$> l.
Proof. induction l as [|x l IH]; [done |]. cbn. by rewrite <- IH. Qed.

Lemma dict_of_row_of record :
  has_columns record -> dict_of_row COLUMNS (row_of record) = inr record.
Proof.
  intros Hdom. unfold dict_of_row, row_of.
  rewrite bool_decide_eq_true_2 by (by rewrite length_fmap).
  f_equal. rewrite zip_fmap_self.
  set (l := (fun x => (x, default "" (record !! x))) <$> COLUMNS).
  assert (Hkeys : l.*1 = COLUMNS) by done.
  assert (Hnodup : NoDup l.*1) by (rewrite Hkeys; apply NoDup_COLUMNS).
  rewrite (list_to_map_proper (reverse l) l);
    [| by rewrite fmap_reverse, reverse_Permutation | apply reverse_Permutation].
  apply map_eq. intros k.
  destruct (decide (k ∈ COLUMNS)) as [Hk | Hk].
  - assert (is_Some (record !! k)) as [v Hv].
    { apply elem_of_dom. rewrite Hdom. by apply elem_of_list_to_set. }
    rewrite Hv. apply elem_of_list_to_map; [done |].
    apply (list_elem_of_fmap_2' _ _ k); [done |]. by rewrite Hv.
  - rewrite (not_elem_of_list_to_map_1 l k) by (by rewrite Hkeys).
    symmetry. apply not_elem_of_dom. rewrite Hdom. by rewrite elem_of_list_to_set.
Qed.

Lemma dict_rows_row_of records :
  Forall has_columns records ->
  dict_rows COLUMNS (row_of <$> records) = inr records.
Proof.
  induction 1 as [|r rs Hr _ IH]; [done |].
  cbn [fmap list_fmap dict_rows]. unfold row_of at 1. cbn [COLUMNS fmap list_fmap].
  fold (row_of r). change (default "" (r !! "id") :: _) with (row_of r).
  rewrite dict_of_row_of by done. fold (fmap (M := list) row_of rs).
  by rewrite IH.
Qed.

Definition records_fit (records : list (gmap string string)) : bool :=
  rows_fit (row_of <$> records).

(** Reading a data file that holds [records]. *)
Lemma dict_reader_store_text records :
  Forall has_columns records ->
  dict_reader (store_text records)
  = if records_fit records then inr records else inl (CsvError FieldLimit).
Proof.
  intros Hcols. unfold dict_reader, store_text, header_row.
  change (writerow COLUMNS +:+ write_rows (row_of <$> records))
    with (write_rows (COLUMNS :: (row_of <$> records))).
  rewrite reader_rows_write_rows.
  change (rows_fit (COLUMNS :: (row_of <$> records)))
    with (forallb (fits 0) COLUMNS && records_fit records).
  replace (forallb (fits 0) COLUMNS) with true by (by vm_compute).
  cbn [andb]. destruct (records_fit records); [| done].
  by apply dict_rows_row_of.
Qed.

Lemma fits_within v : (N.of_nat (String.length v) <= field_limit)%N -> fits 0 v = true.
Proof. intros H. unfold fits. apply N.leb_le. lia. Qed.

Lemma row_of_fits record : within_limit record -> forallb (fits 0) (row_of record) = true.
Proof.
  intros Hlim. unfold row_of. apply forallb_forall. intros x Hx.
  apply list_elem_of_In, list_elem_of_fmap in Hx as (key & -> & _).
  destruct (record !! key) as [v|] eqn:Hv; [| done].
  apply fits_within. by apply (Hlim key).
Qed.

Lemma records_fit_within records :
  Forall within_limit records -> records_fit records = true.
Proof.
  induction 1 as [|r rs Hr _ IH]; [done |].
  unfold records_fit, rows_fit in *. cbn [fmap list_fmap forallb].
  by rewrite row_of_fits, IH.
Qed.

(** The world once the data file is known to exist. *)
Definition ensured (w : world) : world :=
  World (Some (default header_row (data_file w))) (image_dir w) (issued w).

Lemma ensure_data_file_ensured w : ensure_data_file w = (Ok (), ensured w).
Proof. unfold ensure_data_file, ensured. by destruct w as [[c|] ? ?]. Qed.

Lemma ensured_exists w : is_Some (data_file w) -> ensured w = w.
Proof. destruct w as [[c|] ? ?]; [done | by intros [? ?]]. Qed.

Lemma ensured_idemp w : ensured (ensured w) = ensured w.
Proof. done. Qed.

Definition outcome_of {A} (r : exn + A) : outcome A :=
  match r with
  | inl e => Raised e
  | inr a => Ok a
  end.

Lemma lift_id {A} (r : exn + A) w : lift id r w = (outcome_of r, w).
Proof. by destruct r. Qed.

Lemma load_records_run w :
  load_records w
  = (outcome_of (dict_reader (default header_row (data_file w))), ensured w).
Proof.
  unfold load_records, bind. rewrite ensure_data_file_ensured.
  by rewrite lift_id.
Qed.

Lemma write_records_run records w :
  write_records records w
  = (match (written records).2 with None => Ok () | Some e => Raised e end,
     World (Some (header_row +:+ (written records).1)) (image_dir w) (issued w)).
Proof.
  unfold write_records, bind. rewrite ensure_data_file_ensured.
  by destruct (written records) as [out [e|]].
Qed.

(** [holds w records]: the data file of [w], or the header it will get
    when it does not exist yet, is the text of [records]. *)
Definition holds (w : world) (records : list (gmap string string)) : Prop :=
  default header_row (data_file w) = store_text records
  /\ Forall has_columns records.

Definition stored (w : world) (records : list (gmap string string)) : world :=
  World (Some (store_text records)) (image_dir w) (issued w).

Lemma holds_stored w records : Forall has_columns records -> holds (stored w records) records.
Proof. by split. Qed.

Lemma holds_ensured w records : holds w records -> holds (ensured w) records.
Proof. by intros [H1 H2]. Qed.

Lemma has_columns_subseteq r : has_columns r -> dom r ⊆ list_to_set COLUMNS.
Proof. by intros ->. Qed.

Lemma write_records_columns records w :
  Forall (fun r => dom r ⊆ list_to_set COLUMNS) records ->
  write_records records w = (Ok (), stored w records).
Proof. intros H. rewrite write_records_run. by rewrite written_columns. Qed.

Lemma load_records_holds w records :
  holds w records ->
  load_records w
  = (if records_fit records then Ok records else Raised (CsvError FieldLimit), ensured w).
Proof.
  intros [Hfile Hcols]. rewrite load_records_run, Hfile.
  rewrite dict_reader_store_text by done. by destruct (records_fit records).
Qed.

Lemma load_records_stored w records :
  Forall has_columns records -> Forall within_limit records ->
  load_records (stored w records) = (Ok records, stored w records).
Proof.
  intros Hcols Hlim.
  rewrite (load_records_holds _ records) by (by apply holds_stored).
  by rewrite records_fit_within.
Qed.

Lemma get_loop_found card_id before record rest w :
  Forall (fun r => exists v, r !! "id" = Some v /\ v <> card_id) before ->
  record !! "id" = Some card_id ->
  get_loop card_id (before ++ record :: rest) w = (Ok (serialize_record record), w).
Proof.
  intros Hbefore Hid. induction Hbefore as [|r before (v & Hv & Hne) _ IH].
  - cbn [app get_loop]. rewrite Hid. by rewrite bool_decide_eq_true_2.
  - cbn [app get_loop]. rewrite Hv. by rewrite bool_decide_eq_false_2.
Qed.

Lemma get_loop_absent card_id records w :
  Forall (fun r => exists v, r !! "id" = Some v /\ v <> card_id) records ->
  get_loop card_id records w = (HTTPException 404 "Card not found", w).
Proof.
  induction 1 as [|r records (v & Hv & Hne) _ IH]; [done |].
  cbn [get_loop]. rewrite Hv. by rewrite bool_decide_eq_false_2.
Qed.

Lemma update_loop_absent card_id changes before records w :
  Forall (fun r => exists v, r !! "id" = Some v /\ v <> card_id) records ->
  update_loop card_id changes before records w
  = (HTTPException 404 "Card not found", w).
Proof.
  intros H. revert before. induction H as [|r records (v & Hv & Hne) _ IH]; intros before; [done |].
  cbn [update_loop]. rewrite Hv. by rewrite bool_decide_eq_false_2.
Qed.

Lemma update_loop_found card_id changes pre before row rest w :
  Forall (fun r => exists v, r !! "id" = Some v /\ v <> card_id) before ->
  row !! "id" = Some card_id ->
  update_loop card_id changes pre (before ++ row :: rest) w
  = bind (write_records (pre ++ before ++ (changes ∪ row) :: rest))
      (fun _ => ret (changes ∪ row)) w.
Proof.
  intros Hbefore Hid. revert pre.
  induction Hbefore as [|r before (v & Hv & Hne) _ IH]; intros pre.
  - cbn [app update_loop]. rewrite Hid. by rewrite bool_decide_eq_true_2.
  - cbn [app update_loop]. rewrite Hv. rewrite bool_decide_eq_false_2 by done.
    rewrite IH. by rewrite <- (assoc_L (++) pre [r]).
Qed.

End StoreFacts.

(** ** Round trip through the data file *)

Module RoundTrip.
Import PyStr Csv CsvFacts App StoreFacts.


Definition empty_world : world := World None ∅ [].

Definition sample_card (card_id first : string) (notes : string) : gmap string string :=
  list_to_map
    [ ("id", card_id); ("first_name", first); ("last_name", "Lee");
      ("company", "Acme, Inc."); ("company_logo_description", "");
      ("email", "lee@example.org"); ("phone", "+1 555 0100"); ("address", "");
      ("meeting_context", ""); ("priorities", ""); ("personal_notes", notes);
      ("captured_at", "2024-03-09T07:05:00+00:00");
      ("source_image", card_id +:+ "_source.png"); ("summary_image", "");
      ("raw_ocr_json", "{}") ].

Definition sample_records : list (gmap string string) :=
  [ sample_card "a1" "Ann" (String dquote "quoted" +:+ String dquote ("," +:+ String LF "next line"));
    sample_card "b2" "Bo" "" ].

Lemma sample_records_columns : Forall has_columns sample_records.
Proof.
  unfold sample_records.
  repeat apply Forall_cons_2;
    [apply (bool_decide_unpack (has_columns _)); vm_compute; exact I.. | apply Forall_nil_2].
Qed.

Lemma sample_records_within_limit : Forall within_limit sample_records.
Proof.
  unfold sample_records.
  repeat apply Forall_cons_2;
    [apply (bool_decide_unpack (within_limit _)); vm_compute; exact I.. | apply Forall_nil_2].
Qed.


(** A record whose notes are one character longer than the field size
    limit of the reader. *)
Definition long_value : string := Pos.iter (String "a") "" 131073%positive.

Definition long_card : gmap string string :=
  <[ "personal_notes" := long_value ]> (sample_card "c3" "Cy" "").

Lemma long_card_columns : has_columns long_card.
Proof.
  unfold has_columns, long_card. rewrite dom_insert_L.
  apply (bool_decide_unpack (_ = _)). vm_compute. exact I.
Qed.

Lemma long_card_unreadable :
  (load_records (write_records [long_card] empty_world).2).1
  = Raised (CsvError FieldLimit).
Proof. by vm_compute. Qed.


End RoundTrip.

(** ** Error paths of the handlers *)

Module Errors.
Import PyStr Csv CsvFacts App StoreFacts RoundTrip.
#[local] Open Scope M_scope.

(** [absent card_id records]: every record has an id, and none is
    [card_id]. *)
Definition absent (card_id : string) (records : list (gmap string string)) : Prop :=
  Forall (fun r => exists v, r !! "id" = Some v /\ v <> card_id) records.

Lemma update_record_absent card_id changes records w w1 :
  load_records w = (Ok records, w1) ->
  absent card_id records ->
  update_record card_id changes w = (HTTPException 404 "Card not found", w1).
Proof.
  intros Hload Habsent. unfold update_record, bind. rewrite Hload.
  by apply update_loop_absent.
Qed.

Lemma absent_of_columns card_id records :
  Forall has_columns records ->
  Forall (fun r => r !! "id" <> Some card_id) records ->
  absent card_id records.
Proof.
  intros Hcols Hmissing. unfold absent.
  induction Hcols as [|r records Hr _ IH]; [apply Forall_nil_2 |].
  apply Forall_cons in Hmissing as [Hne Hmissing].
  apply Forall_cons_2; [| by apply IH].
  assert (is_Some (r !! "id")) as [v Hv].
  { apply elem_of_dom. rewrite Hr. apply elem_of_list_to_set.
    unfold COLUMNS. apply list_elem_of_here. }
  exists v. split; [done |]. intros ->. by apply Hne.
Qed.

(** C5 (amended).  On a store that holds records written by this
    module, each value within the field size limit of the reader, and
    for an id that no stored record has: saving context for the id and
    fetching it both end in the 404 error; the images and the requests
    issued are as before; a data file that exists is left as it is, so
    that the world is unchanged; and a data file that does not exist
    yet is created, holding the header line and nothing else. *)
Theorem unknown_card_not_found (e : env) (w : world)
  (records : list (gmap string string)) (card_id : string) (payload : CardContext) :
  holds w records ->
  Forall within_limit records ->
  Forall (fun r => r !! "id" <> Some card_id) records ->
  exists w1,
    save_context e card_id payload w = (HTTPException 404 "Card not found", w1)
    /\ get_card card_id w = (HTTPException 404 "Card not found", w1)
    /\ image_dir w1 = image_dir w /\ issued w1 = issued w
    /\ (is_Some (data_file w) -> w1 = w)
    /\ (data_file w = None -> data_file w1 = Some header_row).
Proof.
  intros Hholds Hlim Hmissing.
  assert (Habsent : absent card_id records) by (apply absent_of_columns; [apply Hholds | done]).
  assert (Hload : load_records w = (Ok records, ensured w)).
  { rewrite (load_records_holds w records Hholds). by rewrite records_fit_within. }
  exists (ensured w). split; [| split].
  - unfold save_context, bind.
    by rewrite (update_record_absent _ _ records w (ensured w)).
  - unfold get_card, bind. rewrite Hload. by apply get_loop_absent.
  - split; [done |]. split; [done |]. split; [apply ensured_exists |].
    intros Hnone. unfold ensured. cbn [data_file]. by rewrite Hnone.
Qed.

Definition sample_world : world := stored empty_world sample_records.

Definition sample_env : env :=
  {| image_exif := CaptureFacts.sample_exif;
     TAGS := Capture.datetime_tags;
     strptime := CaptureFacts.strptime_padded;
     now := CaptureFacts.sample_now;
     uuid4 := "7d444840-9dc0-11d1-b245-5ffdce74fad2";
     path_suffix := fun name => match find "." name with
                                | Some i => drop i name
                                | None => ""
                                end;
     b64encode := fun _ => "AQ==";
     chat_service := fun _ => inr (Json.q "{'first_name': 'Dee', 'phone': '555'}");
     json_loads := fun s =>
       match Json.loads s with
       | Some (Json.Object members) =>
           Some (list_to_map (reverse (omap (fun kv =>
                   match kv.2 with Json.Str v => Some (kv.1, v) | _ => None end) members)))
       | _ => None
       end;
     json_dumps := fun _ => "{}";
     utils_create_image := fun _ _ => inr [Byte.x89; Byte.x50] |}.

Lemma sample_world_loads : load_records sample_world = (Ok sample_records, sample_world).
Proof.
  apply load_records_stored;
    [apply sample_records_columns | apply sample_records_within_limit].
Qed.

Lemma sample_records_absent : absent "zz" sample_records.
Proof.
  unfold absent, sample_records.
  apply Forall_cons_2; [by exists "a1" |].
  apply Forall_cons_2; [by exists "b2" |].
  apply Forall_nil_2.
Qed.

Lemma sample_records_holds : holds sample_world sample_records.
Proof. apply holds_stored, sample_records_columns. Qed.

Lemma unknown_card_not_found_witness :
  exists w1,
    save_context sample_env "zz" (Build_CardContext "met at expo" "" "") sample_world
    = (HTTPException 404 "Card not found", w1)
    /\ get_card "zz" sample_world = (HTTPException 404 "Card not found", w1)
    /\ image_dir w1 = image_dir sample_world /\ issued w1 = issued sample_world
    /\ (is_Some (data_file sample_world) -> w1 = sample_world)
    /\ (data_file sample_world = None -> data_file w1 = Some header_row).
Proof.
  apply (unknown_card_not_found sample_env sample_world sample_records "zz"
           (Build_CardContext "met at expo" "" "")).
  - exact sample_records_holds.
  - exact sample_records_within_limit.
  - apply Forall_cons_2; [intros H; vm_compute in H; discriminate H |].
    apply Forall_cons_2; [intros H; vm_compute in H; discriminate H | apply Forall_nil_2].
Defined.

(** A store whose one record has notes longer than the field size limit,
    as [save_context] leaves it when the payload has such notes. *)
Definition overlong_world : world := stored empty_world [long_card].

Lemma overlong_world_unreadable :
  (load_records overlong_world).1 = Raised (CsvError FieldLimit).
Proof.
  pose proof long_card_unreadable as H.
  rewrite write_records_columns in H; [exact H |].
  apply Forall_cons_2; [| apply Forall_nil_2].
  apply has_columns_subseteq, long_card_columns.
Qed.

(** C5 as stated, for every store and every id that is not in it, fails
    in two ways.  When a stored value is longer than the field size
    limit of the reader, the requests end in the reader's exception and
    not in 404.  And when there is no data file yet, the requests that
    end in 404 have created it: the world is not the one before. *)
Lemma unknown_card_other_outcomes :
  ~ (forall (e : env) (w : world) (records : list (gmap string string))
       (card_id : string) (payload : CardContext),
        holds w records ->
        Forall (fun r => r !! "id" <> Some card_id) records ->
        (save_context e card_id payload w).1 = HTTPException 404 "Card not found"
        /\ (get_card card_id w).1 = HTTPException 404 "Card not found")
  /\ ~ (forall (e : env) (w : world) (records : list (gmap string string))
         (card_id : string) (payload : CardContext),
          holds w records ->
          Forall (fun r => r !! "id" <> Some card_id) records ->
          (save_context e card_id payload w).2 = w /\ (get_card card_id w).2 = w).
Proof.
  split.
  - intros H.
    destruct (H sample_env overlong_world [long_card] "zz" (Build_CardContext "" "" ""))
      as [_ Hget].
    + apply holds_stored. apply Forall_cons_2; [apply long_card_columns | apply Forall_nil_2].
    + apply Forall_cons_2; [| apply Forall_nil_2].
      unfold long_card. rewrite lookup_insert_ne by done.
      intros Hid. vm_compute in Hid. discriminate Hid.
    + pose proof overlong_world_unreadable as Hload.
      unfold get_card, bind in Hget.
      destruct (load_records overlong_world) as [[rs | c d | err] w'];
        cbn [fst] in Hload, Hget; [discriminate Hload | discriminate Hload | discriminate Hget].
  - intros H.
    destruct (H sample_env empty_world [] "zz" (Build_CardContext "" "" "")) as [_ Hget].
    + split; [| apply Forall_nil_2]. vm_compute. reflexivity.
    + apply Forall_nil_2.
    + apply (f_equal data_file) in Hget. vm_compute in Hget. discriminate Hget.
Qed.

(** C7.  An upload without a file, or with a file that has no bytes,
    ends in the 400 error before anything is read, requested or written:
    the world is unchanged. *)
Theorem upload_card_rejects_empty (e : env) (w : world) (file : option UploadFile) :
  file = None \/ (exists f, file = Some f /\ file_bytes f = []) ->
  exists detail, upload_card e file w = (HTTPException 400 detail, w).
Proof.
  intros [-> | (f & -> & Hempty)].
  - by exists "No file uploaded.".
  - exists "Uploaded file is empty.". unfold upload_card. by rewrite Hempty.
Qed.

Lemma upload_card_rejects_empty_witness :
  exists detail,
    upload_card sample_env (Some (Build_UploadFile [] (Some "image/png") (Some "card.png")))
      sample_world
    = (HTTPException 400 detail, sample_world).
Proof.
  apply upload_card_rejects_empty.
  right. eexists. split; reflexivity.
Defined.

End Errors.

(** ** [update_record] and what it leaves untouched *)

Module Update.
Import PyStr PyStrFacts Csv CsvFacts App StoreFacts RoundTrip Errors.
#[local] Open Scope M_scope.

Lemma has_columns_union changes row :
  dom changes ⊆ list_to_set COLUMNS -> has_columns row -> has_columns (changes ∪ row).
Proof.
  unfold has_columns. intros Hsub Hrow. rewrite dom_union_L, Hrow.
  by apply subseteq_union_1_L.
Qed.


(** What [update_record] does when the first record with the id splits
    the loaded list into [before], [row] and [rest]. *)
Lemma update_record_found card_id changes w w1 before row rest :
  load_records w = (Ok (before ++ row :: rest), w1) ->
  absent card_id before ->
  row !! "id" = Some card_id ->
  update_record card_id changes w
  = bind (write_records (before ++ (changes ∪ row) :: rest))
      (fun _ => ret (changes ∪ row)) w1.
Proof.
  intros Hload Hbefore Hid. unfold update_record. unfold bind at 1. rewrite Hload.
  by rewrite (update_loop_found card_id changes [] before row rest w1).
Qed.

Lemma update_record_columns card_id changes w w1 before row rest :
  load_records w = (Ok (before ++ row :: rest), w1) ->
  Forall has_columns (before ++ row :: rest) ->
  dom changes ⊆ list_to_set COLUMNS ->
  absent card_id before ->
  row !! "id" = Some card_id ->
  update_record card_id changes w
  = (Ok (changes ∪ row), stored w1 (before ++ (changes ∪ row) :: rest)).
Proof.
  intros Hload Hcols Hsub Hbefore Hid.
  rewrite (update_record_found _ _ _ w1 before row rest) by done.
  unfold bind. rewrite write_records_columns; [done |].
  apply Forall_app in Hcols as [Hb Hr]. apply Forall_cons in Hr as [Hrow Hr].
  apply Forall_app. split; [| apply Forall_cons; split].
  - eapply Forall_impl; [exact Hb | apply has_columns_subseteq].
  - apply has_columns_subseteq. by apply has_columns_union.
  - eapply Forall_impl; [exact Hr | apply has_columns_subseteq].
Qed.




Lemma writerow_length fs : 0 < String.length (writerow fs).
Proof.
  unfold writerow.
  destruct fs as [|[|c f] [|f2 fs]]; try (rewrite slength_app); simpl; lia.
Qed.

Lemma store_text_cons_ne row records : store_text (row :: records) <> store_text [].
Proof.
  unfold store_text. intros H. apply String.app_inj in H.
  cbn [fmap list_fmap write_rows foldr] in H.
  apply (f_equal String.length) in H. rewrite slength_app in H.
  cbn [String.length] in H. pose proof (writerow_length (row_of row)). lia.
Qed.








Example foreign_key_store_is_empty :
  load_records (stored sample_world []) = (Ok [], stored sample_world []).
Proof. apply load_records_stored; apply Forall_nil_2. Qed.

End Update.

(** ** The handlers on a well-formed store *)

Module Handlers.
Import PyStr PyStrFacts Csv CsvFacts App StoreFacts RoundTrip Errors Update.
#[local] Open Scope M_scope.

Lemma extract_capture_datetime_returns (e : env) (image_bytes : list Byte.byte) :
  exists stamp,
    Capture.extract_capture_datetime (image_exif e) (TAGS e) (strptime e) (now e) image_bytes
    = inr stamp.
Proof.
  unfold Capture.extract_capture_datetime.
  destruct (Capture.read_capture _ _ _ _) as [x | [s |]]; by eexists.
Qed.

Lemma new_record_columns e card_id capture_time name extracted :
  has_columns (new_record e card_id capture_time name extracted).
Proof. unfold has_columns, new_record. by rewrite dom_list_to_map_L. Qed.

(** The annotation fields and the summary image of a record just made. *)
Definition blank (record : gmap string string) : Prop :=
  record !! "meeting_context" = Some "" /\ record !! "priorities" = Some ""
  /\ record !! "personal_notes" = Some "" /\ record !! "summary_image" = Some "".

Lemma new_record_blank e card_id capture_time name extracted :
  blank (new_record e card_id capture_time name extracted).
Proof. by repeat split. Qed.

Lemma holds_same_file w w' records :
  data_file w' = data_file w -> holds w records -> holds w' records.
Proof. unfold holds. by intros ->. Qed.

(** The file name under which the uploaded image is saved. *)
Definition source_name (e : env) (f : UploadFile) : string :=
  uuid4 e +:+ "_source"
  +:+ or_else (Some (path_suffix e (or_else (filename f) "card.png"))) ".png".

(** What an upload with content does to a store that holds [records]:
    one extraction request is issued; the store either still holds
    [records], or holds them followed by the new record, which is then
    the one returned. *)
Lemma upload_card_holds e f w records :
  file_bytes f <> [] ->
  holds w records ->
  let req := extraction_request e (file_bytes f) (content_type f) in
  exists out w',
    upload_card e (Some f) w = (out, w')
    /\ issued w' = issued w ++ [ChatCompletion req]
    /\ ((holds w' records /\ forall resp, out <> Ok resp)
        \/ exists capture_time content extracted,
             let record := new_record e (uuid4 e) capture_time (source_name e f) extracted in
             Capture.extract_capture_datetime (image_exif e) (TAGS e) (strptime e) (now e)
               (file_bytes f) = inr capture_time
             /\ chat_service e req = inr content
             /\ Blob.parse_json_blob (json_loads e) content = Some extracted
             /\ out = Ok (serialize_record record)
             /\ holds w' (records ++ [record])).
Proof.
  intros Hbytes Hholds req. unfold upload_card.
  destruct (extract_capture_datetime_returns e (file_bytes f)) as [stamp Hstamp].
  subst req.
  destruct (file_bytes f) as [|b bs] eqn:Hb; [done |].
  unfold bind at 1. rewrite Hstamp. cbn [lift ret].
  unfold bind at 1. unfold extract_card_details.
  unfold bind at 1. cbn [issue]. unfold bind at 1.
  set (req := extraction_request e (b :: bs) (content_type f)).
  destruct (chat_service e req) as [err | content] eqn:Hchat; cbn [lift raise ret id].
  { eexists _, _. split; [reflexivity |]. split; [done |]. left.
    split; [by apply (holds_same_file w) | done]. }
  destruct (Blob.parse_json_blob (json_loads e) content) as [extracted |] eqn:Hparse;
    cbn [raise ret].
  2:{ eexists _, _. split; [reflexivity |]. split; [done |]. left.
      split; [by apply (holds_same_file w) | done]. }
  unfold bind at 1. cbn [save_image]. unfold bind at 1.
  set (w2 := World (data_file _) _ _).
  assert (Hw2 : holds w2 records) by (by apply (holds_same_file w)).
  rewrite (load_records_holds w2 records Hw2).
  destruct (records_fit records).
  2:{ eexists _, _. split; [reflexivity |]. split; [done |]. left.
      split; [by apply holds_ensured | done]. }
  unfold bind at 1. rewrite write_records_columns.
  - eexists _, _. split; [reflexivity |]. split; [done |]. right.
    exists stamp, content, extracted. do 4 (split; [done |]).
    apply holds_stored. destruct Hholds as [_ Hcols].
    apply Forall_app. split; [done |].
    apply Forall_cons. split; [apply new_record_columns | done].
  - destruct Hholds as [_ Hcols].
    apply Forall_app. split.
    + eapply Forall_impl; [exact Hcols | apply has_columns_subseteq].
    + apply Forall_cons. split; [| done].
      apply has_columns_subseteq, new_record_columns.
Qed.

Lemma has_columns_id record : has_columns record -> is_Some (record !! "id").
Proof.
  intros Hdom. apply elem_of_dom. rewrite Hdom.
  apply elem_of_list_to_set. unfold COLUMNS. apply list_elem_of_here.
Qed.

(** Either no record has the id, or a first one has. *)
Lemma first_match card_id records :
  Forall has_columns records ->
  absent card_id records
  \/ exists before row rest,
       records = before ++ row :: rest
       /\ absent card_id before /\ row !! "id" = Some card_id.
Proof.
  induction 1 as [|r records Hr _ IH]; [left; apply Forall_nil_2 |].
  destruct (has_columns_id r Hr) as [v Hv].
  destruct (decide (v = card_id)) as [-> | Hne].
  - right. exists [], r, records. split; [done |]. split; [apply Forall_nil_2 | done].
  - destruct IH as [Habs | (before & row & rest & -> & Hbefore & Hid)].
    + left. apply Forall_cons_2; [by exists v | done].
    + right. exists (r :: before), row, rest. split; [done |].
      split; [| done]. apply Forall_cons_2; [by exists v | done].
Qed.

Definition summary_changes (name : string) : gmap string string :=
  {[ "summary_image" := name ]}.

Lemma context_changes_columns payload :
  dom (context_changes payload) ⊆ list_to_set COLUMNS.
Proof.
  unfold context_changes. rewrite dom_list_to_map_L. cbn [fmap list_fmap fst].
  apply (bool_decide_unpack (_ ⊆ _)). vm_compute. exact I.
Qed.

Lemma summary_changes_columns name : dom (summary_changes name) ⊆ list_to_set COLUMNS.
Proof.
  unfold summary_changes. rewrite dom_singleton_L.
  apply (bool_decide_unpack (_ ⊆ _)). vm_compute. exact I.
Qed.

Lemma has_columns_replace before row row' rest :
  Forall has_columns (before ++ row :: rest) -> has_columns row' ->
  Forall has_columns (before ++ row' :: rest).
Proof.
  intros [Hb [_ Hr]%Forall_cons]%Forall_app Hrow'.
  apply Forall_app. split; [done |]. by apply Forall_cons.
Qed.

(** The world in which the store holds [records], the image directory
    is [images] and the requests issued are [events]. *)
Definition world_with (records : list (gmap string string))
  (images : gmap string (list Byte.byte)) (events : list request_event) : world :=
  World (Some (store_text records)) images events.

(** [save_context] when the store loads and [row] is the first record
    with the id: the context goes into the record, one image request is
    issued for the prompt made from the updated record, and only when it
    succeeds is the summary image saved and linked. *)
Lemma save_context_found e card_id payload w before row rest :
  holds w (before ++ row :: rest) ->
  records_fit (before ++ row :: rest) = true ->
  absent card_id before ->
  row !! "id" = Some card_id ->
  let row1 := context_changes payload ∪ row in
  let prompt := summarize_for_image row1 payload in
  let events := issued w ++ [ImageGeneration prompt "1024x1024"] in
  let name := card_id +:+ "_summary.png" in
  let row2 := summary_changes name ∪ row1 in
  save_context e card_id payload w
  = match utils_create_image e prompt "1024x1024" with
    | inl err => (Raised err, world_with (before ++ row1 :: rest) (image_dir w) events)
    | inr bytes =>
        let images := <[name := bytes]> (image_dir w) in
        if records_fit (before ++ row1 :: rest)
        then (Ok (serialize_record row2), world_with (before ++ row2 :: rest) images events)
        else (Raised (CsvError FieldLimit), world_with (before ++ row1 :: rest) images events)
    end.
Proof.
  intros Hholds Hfit Hbefore Hid row1 prompt events name row2.
  assert (Hcols : Forall has_columns (before ++ row :: rest)) by apply Hholds.
  assert (Hrow : has_columns row).
  { apply Forall_app in Hcols as [_ Hr]. by apply Forall_cons in Hr as [? _]. }
  assert (Hrow1 : has_columns row1)
    by (apply has_columns_union; [apply context_changes_columns | done]).
  assert (Hcols1 : Forall has_columns (before ++ row1 :: rest))
    by (by apply (has_columns_replace before row)).
  assert (Hid1 : row1 !! "id" = Some card_id)
    by (unfold row1; by rewrite lookup_union_r).
  unfold save_context. unfold bind at 1.
  rewrite (update_record_columns card_id _ w (ensured w) before row rest);
    [| by rewrite (load_records_holds w _ Hholds), Hfit
     | done | apply context_changes_columns | done | done].
  unfold bind at 1. unfold create_image. unfold bind at 1. cbn [issue].
  fold row1. fold prompt. cbn [stored ensured data_file image_dir issued].
  fold events.
  destruct (utils_create_image e prompt "1024x1024") as [err | bytes]; cbn [lift raise ret id].
  { reflexivity. }
  unfold bind at 1. cbn [save_image data_file image_dir issued]. unfold bind at 1.
  fold name.
  set (w2 := World (Some (store_text (before ++ row1 :: rest)))
               (<[name := bytes]> (image_dir w)) events).
  assert (Hw2 : holds w2 (before ++ row1 :: rest)) by (by split).
  destruct (records_fit (before ++ row1 :: rest)) eqn:Hfit1.
  - rewrite (update_record_columns card_id _ w2 w2 before row1 rest);
      [reflexivity
      | by rewrite (load_records_holds w2 _ Hw2), Hfit1
      | done | apply summary_changes_columns | done | done].
  - unfold update_record. unfold bind at 1.
    by rewrite (load_records_holds w2 _ Hw2), Hfit1.
Qed.

End Handlers.

(** ** Upload: what is asked of the model and what is stored *)

Module Upload.
Import PyStr PyStrFacts Csv CsvFacts App StoreFacts RoundTrip Errors Update Handlers.
#[local] Open Scope M_scope.

(** The keys a prompt lists after the words [keys: ], up to its final
    full stop. *)
Definition named_keys (prompt : string) : list string :=
  match find "keys: " prompt with
  | None => []
  | Some i =>
      let listed := drop (i + 6) prompt in
      let listed :=
        match rfind "." listed with
        | Some j => if bool_decide (j + 1 = String.length listed)
                    then substring 0 j listed else listed
        | None => listed
        end in
      split ", " listed
  end.

Lemma named_keys_system_prompt : named_keys system_prompt = requested_keys.
Proof. by vm_compute. Qed.

Lemma new_record_requested e card_id capture_time name extracted key :
  key ∈ requested_keys ->
  new_record e card_id capture_time name extracted !! key = Some (get extracted key "").
Proof.
  unfold requested_keys. intros H.
  repeat (apply elem_of_cons in H as [-> | H]; [reflexivity |]).
  by apply elem_of_nil in H.
Qed.

(** C4 (amended).  An upload with content issues one chat request, which
    demands a JSON object and whose system message names seven keys; and
    when the upload succeeds, the created record, stored after the
    others, has the empty string at each of those keys that the parsed
    extraction result lacks. *)
Theorem upload_card_extraction (e : env) (f : UploadFile) (w : world)
  (records : list (gmap string string)) :
  file_bytes f <> [] ->
  holds w records ->
  exists out w' req,
    upload_card e (Some f) w = (out, w')
    /\ issued w' = issued w ++ [ChatCompletion req]
    /\ response_format req = "json_object"
    /\ named_keys (system_content req)
       = [ "first_name"; "last_name"; "company"; "company_logo_description";
           "email"; "phone"; "address" ]
    /\ (forall resp, out = Ok resp ->
        exists content extracted record,
          chat_service e req = inr content
          /\ Blob.parse_json_blob (json_loads e) content = Some extracted
          /\ holds w' (records ++ [record])
          /\ resp = serialize_record record
          /\ forall key, key ∈ named_keys (system_content req) ->
                         extracted !! key = None -> record !! key = Some "").
Proof.
  intros Hbytes Hholds.
  destruct (upload_card_holds e f w records Hbytes Hholds)
    as (out & w' & Hrun & Hissued & Hcases).
  exists out, w', (extraction_request e (file_bytes f) (content_type f)).
  split; [done |]. split; [done |]. split; [done |].
  split; [apply named_keys_system_prompt |].
  intros resp ->.
  destruct Hcases as [[_ Hno] | (capture_time & content & extracted & _ & Hchat & Hparse & Hout & Hnew)].
  - by destruct (Hno resp).
  - exists content, extracted,
      (new_record e (uuid4 e) capture_time (source_name e f) extracted).
    split; [done |]. split; [done |]. split; [done |].
    split; [by injection Hout |].
    intros key Hkey Hnone. cbn [system_content extraction_request] in Hkey.
    rewrite named_keys_system_prompt in Hkey.
    rewrite new_record_requested by done. unfold get. by rewrite Hnone.
Qed.

Definition sample_upload : UploadFile :=
  {| file_bytes := [Byte.x01]; content_type := None; filename := Some "dee.jpeg" |}.

Lemma sample_world_holds : holds sample_world sample_records.
Proof. apply holds_stored, sample_records_columns. Qed.

Lemma upload_card_extraction_witness :
  exists out w' req,
    upload_card sample_env (Some sample_upload) sample_world = (out, w')
    /\ issued w' = issued sample_world ++ [ChatCompletion req]
    /\ response_format req = "json_object"
    /\ named_keys (system_content req)
       = [ "first_name"; "last_name"; "company"; "company_logo_description";
           "email"; "phone"; "address" ]
    /\ (forall resp, out = Ok resp ->
        exists content extracted record,
          chat_service sample_env req = inr content
          /\ Blob.parse_json_blob (json_loads sample_env) content = Some extracted
          /\ holds w' (sample_records ++ [record])
          /\ resp = serialize_record record
          /\ forall key, key ∈ named_keys (system_content req) ->
                         extracted !! key = None -> record !! key = Some "").
Proof.
  apply (upload_card_extraction sample_env sample_upload sample_world sample_records).
  - discriminate.
  - exact sample_world_holds.
Defined.

(** C4 as stated has the request name six fields; the system message
    names seven keys. *)
Lemma extraction_names_seven_keys :
  ~ (length (named_keys
               (system_content (extraction_request sample_env [Byte.x01] None))) = 6).
Proof. vm_compute. discriminate. Qed.

(** The response to the sample upload: the model answered with a first
    name and a phone number only. *)
Example sample_upload_response :
  (upload_card sample_env (Some sample_upload) sample_world).1
  = Ok {| resp_id := "7d444840-9dc0-11d1-b245-5ffdce74fad2";
          resp_first_name := "Dee"; resp_last_name := ""; resp_company := "";
          resp_company_logo_description := ""; resp_email := ""; resp_phone := "555";
          resp_address := ""; resp_meeting_context := ""; resp_priorities := "";
          resp_personal_notes := "";
          resp_captured_at := "2024-03-09T07:05:00+00:00";
          resp_source_image_url :=
            Some "/media/7d444840-9dc0-11d1-b245-5ffdce74fad2_source.jpeg";
          resp_summary_image_url := None;
          resp_raw_ocr_json := "{}" |}.
Proof. vm_compute. reflexivity. Qed.

End Upload.

(** ** The summary prompt *)

Module Summary.
Import PyStr PyStrFacts Csv CsvFacts App StoreFacts RoundTrip Errors Update Handlers.
Import Upload.
#[local] Open Scope M_scope.


Lemma contains_app_r sub a b : contains sub b = true -> contains sub (a +:+ b) = true.
Proof.
  unfold contains. intros [i Hi]%bool_decide_eq_true_1. apply bool_decide_eq_true_2.
  induction a as [|c a [j Hj]]; cbn [String.append]; [by eexists |].
  rewrite find_unfold. destruct (startswith sub _); [by eexists |].
  rewrite Hj. by eexists.
Qed.

Lemma contains_app_l sub a b : contains sub a = true -> contains sub (a +:+ b) = true.
Proof.
  unfold contains. intros [i Hi]%bool_decide_eq_true_1. apply bool_decide_eq_true_2.
  revert i Hi. induction a as [|c a IH]; intros i Hi.
  - rewrite find_unfold in Hi. destruct (startswith sub "") eqn:Hs; [| done].
    destruct sub; [| done]. rewrite find_unfold, startswith_nil. by eexists.
  - cbn [String.append]. rewrite find_unfold in Hi |- *.
    destruct (startswith sub (String c a)) eqn:Hs.
    + assert (startswith sub (String c (a +:+ b)) = true) as ->; [| by eexists].
      unfold startswith in *. clear -Hs. revert sub Hs.
      change (String c (a +:+ b)) with (String c a +:+ b).
      generalize (String c a). intros s. induction s as [|x s IHs]; intros [|y sub] Hs;
        try done; [by destruct b |].
      cbn [String.append String.prefix] in *.
      destruct (ascii_dec y x); [by apply IHs | done].
    + destruct (startswith sub (String c (a +:+ b))); [by eexists |].
      destruct (find sub a) as [j|] eqn:Hj; [| done].
      destruct (IH j eq_refl) as [k ->]. by eexists.
Qed.

(** *** Stripped names *)

Lemma rstrip_cons c s :
  rstrip (String c s)
  = match rstrip s with
    | "" => if isspace c then "" else String c ""
    | r => String c r
    end.
Proof. done. Qed.

Lemma rstrip_idemp s : rstrip (rstrip s) = rstrip s.
Proof.
  induction s as [|c s IH]; [done |]. rewrite rstrip_cons.
  destruct (rstrip s) as [|c' r] eqn:Hr.
  - destruct (isspace c) eqn:Hc; [done |]. rewrite rstrip_cons. cbn [rstrip]. by rewrite Hc.
  - rewrite rstrip_cons. by rewrite IH.
Qed.

Lemma rstrip_app_space a : rstrip (a +:+ " ") = rstrip a.
Proof. induction a as [|c a IH]; [done |]. cbn [String.append rstrip]. by rewrite IH. Qed.

Lemma lstrip_head s c t : lstrip s = String c t -> isspace c = false.
Proof.
  induction s as [|x s IH]; [done |]. cbn [lstrip].
  destruct (isspace x) eqn:Hx; [done |]. by intros [= <- _].
Qed.

Lemma rstrip_head c s c' t : rstrip (String c s) = String c' t -> c' = c.
Proof.
  cbn [rstrip]. destruct (rstrip s); [destruct (isspace c) |]; by intros [= <- _].
Qed.

Lemma strip_head x c t : strip x = String c t -> isspace c = false.
Proof.
  unfold strip. destruct (lstrip x) as [|c' t'] eqn:Hl; [done |].
  intros H. apply rstrip_head in H as ->. by apply (lstrip_head x c' t').
Qed.

Lemma lstrip_strip x : lstrip (strip x) = strip x.
Proof.
  destruct (strip x) as [|c t] eqn:Hs; [done |].
  cbn [lstrip]. by rewrite (strip_head x c t).
Qed.

Lemma rstrip_strip x : rstrip (strip x) = strip x.
Proof. unfold strip. apply rstrip_idemp. Qed.







Lemma context_changes_lookup payload row :
  (context_changes payload ∪ row) !! "meeting_context" = Some (meeting_context payload)
  /\ (context_changes payload ∪ row) !! "priorities" = Some (priorities payload)
  /\ (context_changes payload ∪ row) !! "personal_notes" = Some (personal_notes payload).
Proof. repeat split; by apply lookup_union_Some_l. Qed.


Definition ann_card : gmap string string :=
  sample_card "a1" "Ann"
    (String dquote "quoted" +:+ String dquote ("," +:+ String LF "next line")).

Definition bo_card : gmap string string := sample_card "b2" "Bo" "".

Definition sample_context : CardContext :=
  {| meeting_context := "met at the expo";
     priorities := "pricing, delivery";
     personal_notes := "likes sailing" |}.


(** The prompt for the sample record. *)
Example sample_prompt :
  summarize_for_image (context_changes sample_context ∪ bo_card) sample_context
  = "Create a friendly, professional portrait for Bo Lee who works at Acme, Inc.. "
    +:+ "Highlight cues from the business card: phone +1 555 0100, email lee@example.org. "
    +:+ "Meeting context: met at the expo. Priorities: pricing, delivery. "
    +:+ "Personal details: likes sailing. "
    +:+ "Style: clean, corporate-ready, subtle background with company color hints, photographic realism.".
Proof. vm_compute. reflexivity. Qed.

End Summary.

(** ** The life of the summary image field *)

Module Lifecycle.
Import PyStr PyStrFacts Csv CsvFacts App StoreFacts RoundTrip Errors Update Handlers.
Import Upload.
#[local] Open Scope M_scope.

(** The four requests of the API. *)
Inductive request :=
| UploadCard (file : option UploadFile)
| SaveContext (card_id : string) (payload : CardContext)
| ListCards
| GetCard (card_id : string).

(** The world a request leaves. *)
Definition after (e : env) (req : request) (w : world) : world :=
  match req with
  | UploadCard file => (upload_card e file w).2
  | SaveContext card_id payload => (save_context e card_id payload w).2
  | ListCards => (list_cards w).2
  | GetCard card_id => (get_card card_id w).2
  end.

Fixpoint after_all (steps : list (env * request)) (w : world) : world :=
  match steps with
  | [] => w
  | (e, req) :: rest => after_all rest (after e req w)
  end.

(** [generated e req r]: the request saves context for the id of [r],
    and [create_image] returns an image for the prompt made for [r]. *)
Definition generated (e : env) (req : request) (r : gmap string string) : Prop :=
  exists card_id payload bytes,
    req = SaveContext card_id payload
    /\ r !! "id" = Some card_id
    /\ utils_create_image e (summarize_for_image (context_changes payload ∪ r) payload) "1024x1024"
       = inr bytes.

(** [kept e req r r']: the record keeps its id, and its summary image
    unless one was generated for it. *)
Definition kept (e : env) (req : request) (r r' : gmap string string) : Prop :=
  r' !! "id" = r !! "id"
  /\ (r' !! "summary_image" = r !! "summary_image" \/ generated e req r).

Lemma kept_refl e req records : Forall2 (kept e req) records records.
Proof. apply Forall_Forall2_diag, Forall_forall. intros r _. split; [done | by left]. Qed.

Lemma kept_replace e req before row row' rest :
  kept e req row row' ->
  Forall2 (kept e req) (before ++ row :: rest) (before ++ row' :: rest).
Proof.
  intros H. apply Forall2_app; [apply kept_refl |].
  constructor; [done | apply kept_refl].
Qed.

Lemma get_loop_world card_id records w : (get_loop card_id records w).2 = w.
Proof.
  induction records as [|r records IH]; [done |]. cbn [get_loop].
  destruct (r !! "id") as [v|]; [| done]. by destruct (bool_decide (v = card_id)).
Qed.

Lemma load_only_holds {A} (k : list (gmap string string) -> M A) w records :
  holds w records ->
  (forall rs w1, (k rs w1).2 = w1) ->
  holds (bind load_records k w).2 records.
Proof.
  intros Hholds Hk. unfold bind. rewrite (load_records_holds w records Hholds).
  destruct (records_fit records); [rewrite Hk |]; by apply holds_ensured.
Qed.

Lemma save_context_unreadable e card_id payload w records :
  holds w records -> records_fit records = false ->
  save_context e card_id payload w = (Raised (CsvError FieldLimit), ensured w).
Proof.
  intros Hholds Hfit. unfold save_context, update_record.
  unfold bind at 1. unfold bind at 1.
  by rewrite (load_records_holds w records Hholds), Hfit.
Qed.

Lemma save_context_absent e card_id payload w records :
  holds w records -> records_fit records = true -> absent card_id records ->
  save_context e card_id payload w = (HTTPException 404 "Card not found", ensured w).
Proof.
  intros Hholds Hfit Habsent. unfold save_context. unfold bind at 1.
  rewrite (update_record_absent card_id _ records w (ensured w)); [done | | done].
  by rewrite (load_records_holds w records Hholds), Hfit.
Qed.

Lemma holds_world_with records images events :
  Forall has_columns records -> holds (world_with records images events) records.
Proof. by split. Qed.

(** One request on a store that holds [records]: every record there is
    kept, and the records added are blank. *)
Lemma after_holds e req w records :
  holds w records ->
  exists kept_records created,
    holds (after e req w) (kept_records ++ created)
    /\ Forall2 (kept e req) records kept_records
    /\ Forall blank created.
Proof.
  intros Hholds.
  assert (Hsame : forall w', holds w' records ->
            exists kept_records created,
              holds w' (kept_records ++ created)
              /\ Forall2 (kept e req) records kept_records /\ Forall blank created).
  { intros w' Hw'. exists records, []. rewrite app_nil_r.
    split; [done |]. split; [apply kept_refl | apply Forall_nil_2]. }
  destruct req as [file | card_id payload | | card_id]; cbn [after].
  - destruct file as [f |]; [| by apply Hsame].
    destruct (file_bytes f) as [|b bs] eqn:Hb.
    { apply Hsame. unfold upload_card. by rewrite Hb. }
    destruct (upload_card_holds e f w records) as (out & w' & Hrun & _ & Hcases);
      [by rewrite Hb | done |].
    rewrite Hrun. cbn [snd].
    destruct Hcases as [[Hw' _] | (t & c & x & _ & _ & _ & _ & Hnew)]; [by apply Hsame |].
    exists records, [new_record e (uuid4 e) t (source_name e f) x].
    split; [done |]. split; [apply kept_refl |].
    apply Forall_cons_2; [apply new_record_blank | apply Forall_nil_2].
  - destruct (records_fit records) eqn:Hfit.
    2:{ rewrite (save_context_unreadable e card_id payload w records) by done.
        apply Hsame. by apply holds_ensured. }
    destruct (first_match card_id records) as [Habs | (before & row & rest & -> & Hbefore & Hid)];
      [apply Hholds | |].
    { rewrite (save_context_absent e card_id payload w records) by done.
      apply Hsame. by apply holds_ensured. }
    rewrite (save_context_found e card_id payload w before row rest) by done.
    cbv zeta.
    set (row1 := context_changes payload ∪ row).
    set (row2 := summary_changes _ ∪ row1).
    assert (Hcols : Forall has_columns (before ++ row :: rest)) by apply Hholds.
    assert (Hrow : has_columns row).
    { apply Forall_app in Hcols as [_ Hr]. by apply Forall_cons in Hr as [? _]. }
    assert (Hrow1 : has_columns row1)
      by (apply has_columns_union; [apply context_changes_columns | done]).
    assert (Hrow2 : has_columns row2)
      by (apply has_columns_union; [apply summary_changes_columns | done]).
    assert (Hkept1 : kept e (SaveContext card_id payload) row row1).
    { split; [| left]; unfold row1; by rewrite lookup_union_r. }
    destruct (utils_create_image e _ "1024x1024") as [err | bytes] eqn:Himage; cbn [snd].
    + exists (before ++ row1 :: rest), []. rewrite app_nil_r.
      split; [apply holds_world_with; by apply (has_columns_replace before row) |].
      split; [by apply kept_replace | apply Forall_nil_2].
    + destruct (records_fit (before ++ row1 :: rest)); cbn [snd].
      * exists (before ++ row2 :: rest), []. rewrite app_nil_r.
        split; [apply holds_world_with; by apply (has_columns_replace before row) |].
        split; [| apply Forall_nil_2]. apply kept_replace. split.
        -- unfold row2, row1. by rewrite !lookup_union_r.
        -- right. by exists card_id, payload, bytes.
      * exists (before ++ row1 :: rest), []. rewrite app_nil_r.
        split; [apply holds_world_with; by apply (has_columns_replace before row) |].
        split; [by apply kept_replace | apply Forall_nil_2].
  - apply Hsame. unfold list_cards. by apply load_only_holds.
  - apply Hsame. unfold get_card. apply load_only_holds; [done |].
    intros rs w1. apply get_loop_world.
Qed.

(** An upload that succeeds adds one blank record, the one returned. *)
Lemma upload_card_created e f w records resp w' :
  holds w records ->
  upload_card e (Some f) w = (Ok resp, w') ->
  exists record,
    holds w' (records ++ [record]) /\ blank record /\ resp = serialize_record record.
Proof.
  intros Hholds Hrun.
  destruct (file_bytes f) as [|b bs] eqn:Hb.
  { unfold upload_card in Hrun. rewrite Hb in Hrun. discriminate Hrun. }
  destruct (upload_card_holds e f w records) as (out & w0 & Hrun0 & _ & Hcases);
    [by rewrite Hb | done |].
  rewrite Hrun in Hrun0. injection Hrun0 as <- <-.
  destruct Hcases as [[_ Hno] | (t & c & x & _ & _ & _ & Hout & Hnew)];
    [by destruct (Hno resp) |].
  exists (new_record e (uuid4 e) t (source_name e f) x).
  split; [done |]. split; [apply new_record_blank |]. by injection Hout.
Qed.

(** [no_generation card_id step]: if the step saves context for
    [card_id], its call of [create_image] raises whatever the prompt. *)
Definition no_generation (card_id : string) (step : env * request) : Prop :=
  forall payload, step.2 = SaveContext card_id payload ->
  forall prompt, exists err, utils_create_image step.1 prompt "1024x1024" = inl err.

Lemma summary_stays_empty steps w records i r card_id :
  holds w records ->
  records !! i = Some r ->
  r !! "id" = Some card_id ->
  r !! "summary_image" = Some "" ->
  Forall (no_generation card_id) steps ->
  exists records' r',
    holds (after_all steps w) records'
    /\ records' !! i = Some r'
    /\ r' !! "id" = Some card_id
    /\ r' !! "summary_image" = Some "".
Proof.
  revert w records r.
  induction steps as [|[e req] steps IH]; intros w records r Hholds Hi Hid Hsummary Hsteps.
  { by exists records, r. }
  apply Forall_cons in Hsteps as [Hstep Hsteps]. cbn [after_all].
  destruct (after_holds e req w records Hholds) as (kept_records & created & Hafter & Hkept & _).
  destruct (Forall2_lookup_l _ _ _ i r Hkept Hi) as (r' & Hi' & Hid' & Hsum').
  apply (IH (after e req w) (kept_records ++ created) r'); try done.
  - by apply lookup_app_l_Some.
  - by rewrite Hid'.
  - destruct Hsum' as [-> | (card_id' & payload & bytes & -> & Hid'' & Himage)]; [done |].
    rewrite Hid in Hid''. injection Hid'' as <-.
    destruct (Hstep payload eq_refl
                (summarize_for_image (context_changes payload ∪ r) payload)) as [err Herr].
    cbn [fst] in Herr. rewrite Herr in Himage. discriminate Himage.
Qed.

(** C6.  On a store that holds [records]: a successful upload adds one
    record whose three annotation fields and summary image are empty;
    any request keeps the summary image of every stored record as it
    is, unless it saves context for that record and the image is
    generated; so a summary image that is empty stays empty through any
    sequence of requests in which image generation fails for that
    record. *)
Theorem summary_image_lifecycle (w : world) (records : list (gmap string string)) :
  holds w records ->
  (forall e f resp w',
      upload_card e (Some f) w = (Ok resp, w') ->
      exists record,
        holds w' (records ++ [record]) /\ blank record /\ resp = serialize_record record)
  /\ (forall e req,
        exists kept_records created,
          holds (after e req w) (kept_records ++ created)
          /\ Forall2 (kept e req) records kept_records
          /\ Forall blank created)
  /\ (forall steps i r card_id,
        records !! i = Some r ->
        r !! "id" = Some card_id ->
        r !! "summary_image" = Some "" ->
        Forall (no_generation card_id) steps ->
        exists records' r',
          holds (after_all steps w) records'
          /\ records' !! i = Some r'
          /\ r' !! "id" = Some card_id
          /\ r' !! "summary_image" = Some "").
Proof.
  intros Hholds. split; [| split].
  - intros e f resp w' Hrun. by apply (upload_card_created e f w).
  - intros e req. by apply after_holds.
  - intros steps i r card_id Hi Hid Hsummary Hsteps.
    by apply (summary_stays_empty steps w records i r card_id).
Qed.

Lemma summary_image_lifecycle_witness :
  (forall e f resp w',
      upload_card e (Some f) sample_world = (Ok resp, w') ->
      exists record,
        holds w' (sample_records ++ [record]) /\ blank record
        /\ resp = serialize_record record)
  /\ (forall e req,
        exists kept_records created,
          holds (after e req sample_world) (kept_records ++ created)
          /\ Forall2 (kept e req) sample_records kept_records
          /\ Forall blank created)
  /\ (forall steps i r card_id,
        sample_records !! i = Some r ->
        r !! "id" = Some card_id ->
        r !! "summary_image" = Some "" ->
        Forall (no_generation card_id) steps ->
        exists records' r',
          holds (after_all steps sample_world) records'
          /\ records' !! i = Some r'
          /\ r' !! "id" = Some card_id
          /\ r' !! "summary_image" = Some "").
Proof. exact (summary_image_lifecycle sample_world sample_records sample_world_holds). Defined.

(** The sample store after a context is saved for the second card: the
    summary image of that card is linked, the first card is as it was. *)
Example sample_save_context :
  (save_context sample_env "b2" Summary.sample_context sample_world).1
  = Ok (serialize_record
          (summary_changes "b2_summary.png"
             ∪ (context_changes Summary.sample_context ∪ Summary.bo_card))).
Proof.
  rewrite (save_context_found sample_env "b2" Summary.sample_context sample_world
             [Summary.ann_card] Summary.bo_card []);
    [| exact sample_world_holds
     | exact (records_fit_within sample_records sample_records_within_limit)
     | apply Forall_cons_2; [by exists "a1" | apply Forall_nil_2]
     | reflexivity].
  cbv zeta. cbn [utils_create_image sample_env].
  replace (records_fit _) with true; [reflexivity |].
  symmetry. apply records_fit_within.
  apply Forall_cons_2; [| apply Forall_cons_2; [| apply Forall_nil_2]];
    apply (bool_decide_unpack (within_limit _)); vm_compute; exact I.
Qed.

End Lifecycle.

(** * Further properties of the code *)

(** ** [parse_json_blob] on replies that are not fenced objects *)

Module BlobEdges.
Import PyStr PyStrFacts Blob BlobFacts Summary.

(** The tag step of line 110. *)
Definition untagged (cleaned : string) : string :=
  if startswith "json" cleaned then drop 4 cleaned else cleaned.

Lemma lstrip_suffix s : exists a, s = a +:+ lstrip s.
Proof.
  induction s as [|c s [a Ha]]; [by exists "" |]. cbn [lstrip].
  destruct (isspace c); [| by exists ""].
  exists (String c a). cbn [String.append]. by rewrite <- Ha.
Qed.

Lemma rstrip_prefix s : exists b, s = rstrip s +:+ b.
Proof.
  induction s as [|c s [b Hb]]; [by exists "" |]. rewrite rstrip_cons.
  destruct (rstrip s) as [|c' r] eqn:Hr.
  - destruct (isspace c); [by exists (String c s) |].
    exists b. cbn [String.append] in *. by rewrite <- Hb.
  - exists b. cbn [String.append] in *. by rewrite <- Hb.
Qed.

Lemma contains_strip sub s : contains sub s = false -> contains sub (strip s) = false.
Proof.
  intros H. destruct (contains sub (strip s)) eqn:Hc; [| done].
  rewrite <- H. symmetry. unfold strip in Hc.
  destruct (lstrip_suffix s) as [a Ha]. destruct (rstrip_prefix (lstrip s)) as [b Hb].
  rewrite Ha. apply contains_app_r. rewrite Hb. by apply contains_app_l.
Qed.

Lemma defenced_unfenced text :
  contains fence text = false -> defenced text = untagged (strip text).
Proof. intros H. unfold defenced. cbv zeta. by rewrite contains_strip. Qed.

Lemma rstrip_lacks c s : lacks c s = true -> lacks c (rstrip s) = true.
Proof.
  intros H. destruct (rstrip_prefix s) as [b Hb]. rewrite Hb in H.
  rewrite lacks_app in H. by apply andb_true_iff in H as [? _].
Qed.

Lemma strip_lacks c s : lacks c s = true -> lacks c (strip s) = true.
Proof. intros H. by apply rstrip_lacks, lstrip_lacks. Qed.

Lemma drop_lacks c n s : lacks c s = true -> lacks c (drop n s) = true.
Proof.
  revert s. induction n as [|n IH]; intros [|x s] H; try done.
  cbn [drop]. apply IH. by apply lacks_cons in H as [_ ?].
Qed.

Lemma untagged_lacks c s : lacks c s = true -> lacks c (untagged s) = true.
Proof. intros H. unfold untagged. destruct (startswith "json" s); [by apply drop_lacks | done]. Qed.

Lemma find_char_none c s : lacks c s = true -> find (String c "") s = None.
Proof.
  induction s as [|x s IH]; intros H; [done |].
  apply lacks_cons in H as [Hx Hs]. rewrite find_unfold.
  rewrite startswith_head_ne by congruence. by rewrite IH.
Qed.

(** Without an opening or without a closing brace the [try] block
    leaves the text as it is. *)
Lemma braces_missing cleaned :
  lacks "{" cleaned = true \/ lacks "}" cleaned = true -> braces cleaned = cleaned.
Proof.
  intros [H | H]; unfold braces.
  - by rewrite find_char_none.
  - rewrite rfind_char_none by done. by destruct (find "{" cleaned).
Qed.

Lemma strip_object lead inner trail :
  strip (lead +:+ ("{" +:+ inner +:+ "}") +:+ trail)
  = lstrip lead +:+ ("{" +:+ inner +:+ "}") +:+ rstrip trail.
Proof.
  unfold strip. cbn [String.append]. rewrite lstrip_app_nonspace by done.
  change (String "{" ((inner +:+ "}") +:+ trail))
    with ("{" +:+ ((inner +:+ "}") +:+ trail)).
  rewrite (sapp_assoc inner "}" trail).
  rewrite <- (sapp_assoc "{" inner), <- (sapp_assoc (lstrip lead)).
  rewrite rstrip_app_keep.
  - cbn [String.append]. rewrite rstrip_nonspace by done.
    rewrite !sapp_assoc. by cbn [String.append].
  - cbn [String.append]. by rewrite rstrip_nonspace.
Qed.


Lemma substring_empty i s : substring i 0 s = "".
Proof. revert s. induction i as [|i IH]; intros [|c s]; cbn [substring]; done. Qed.

Lemma strip_between a x mid y c :
  isspace x = false -> isspace y = false ->
  strip (a +:+ String x (mid +:+ String y c))
  = lstrip a +:+ String x (mid +:+ String y (rstrip c)).
Proof.
  intros Hx Hy. unfold strip. rewrite lstrip_app_nonspace by done.
  change (String x (mid +:+ String y c)) with ((String x mid) +:+ String y c).
  rewrite <- (sapp_assoc (lstrip a)). rewrite rstrip_app_keep.
  - rewrite rstrip_nonspace by done. rewrite sapp_assoc. done.
  - by rewrite rstrip_nonspace.
Qed.

(** The tag step on a text whose lead is followed by a closing brace:
    what is removed, if anything, is part of the lead. *)
Lemma untagged_closing lead Z :
  exists lead',
    (lacks "{" lead = true -> lacks "{" lead' = true)
    /\ untagged (lead +:+ String "}" Z) = lead' +:+ String "}" Z.
Proof.
  unfold untagged. destruct (startswith "json" _) eqn:E; [| by exists lead].
  destruct lead as [|a [|b [|c [|d lead]]]]; startswith_chars; try done.
  exists lead. split; [| done].
  intros Hl. simpl in Hl. by repeat (apply andb_true_iff in Hl as [_ Hl]).
Qed.

Lemma braces_reversed a b c :
  lacks "{" a = true -> lacks "{" b = true -> lacks "}" b = true -> lacks "}" c = true ->
  braces (a +:+ String "}" (b +:+ String "{" c)) = "".
Proof.
  intros Ha Hb Hb' Hc. unfold braces.
  assert (Hfind : find "{" (a +:+ String "}" (b +:+ String "{" c))
                  = Some (String.length (a +:+ String "}" b))).
  { change (String "}" (b +:+ String "{" c)) with (String "}" b +:+ String "{" c).
    rewrite <- sapp_assoc. apply find_char_app.
    rewrite lacks_app, Ha. cbn [lacks andb]. by rewrite Hb. }
  assert (Hrfind : rfind "}" (a +:+ String "}" (b +:+ String "{" c)) = Some (String.length a)).
  { apply rfind_char_app. rewrite lacks_app, Hb'. by cbn [lacks andb]. }
  rewrite Hfind, Hrfind. unfold slice.
  replace (_ - _) with 0 by (rewrite slength_app; cbn [String.length]; lia).
  apply substring_empty.
Qed.


Section Edges.
Context {J : Type} (json_loads : string -> option J).

(** X1.  A reply without code fences in which a JSON object stands
    between a lead without opening brace and a trailer without closing
    brace: the object is what is decoded, whatever prose surrounds it. *)
Theorem parse_json_blob_plain_object (lead inner trail : string) :
  contains fence (lead +:+ ("{" +:+ inner +:+ "}") +:+ trail) = false ->
  lacks "{" lead = true -> lacks "}" trail = true ->
  parse_json_blob json_loads (lead +:+ ("{" +:+ inner +:+ "}") +:+ trail)
  = json_loads ("{" +:+ inner +:+ "}").
Proof.
  intros Hfence Hl Ht. unfold parse_json_blob.
  rewrite defenced_unfenced by done. rewrite strip_object. unfold untagged.
  destruct (drop_json_tag (lstrip lead) ((inner +:+ "}") +:+ rstrip trail))
    as (lead' & Hl' & Hd); [by apply lstrip_lacks |].
  cbn [String.append] in Hd |- *. rewrite Hd.
  apply (f_equal json_loads).
  apply (braces_object lead' inner (rstrip trail)); [done | by apply rstrip_lacks].
Qed.

(** X2.  A reply without code fences that has no opening brace, or no
    closing brace: the failing [index] or [rindex] is passed over, and
    the decoder gets the stripped text, less a leading [json]. *)
Theorem parse_json_blob_without_braces (text : string) :
  contains fence text = false ->
  lacks "{" text = true \/ lacks "}" text = true ->
  parse_json_blob json_loads text
  = json_loads (if startswith "json" (strip text) then drop 4 (strip text) else strip text).
Proof.
  intros Hfence Hb. unfold parse_json_blob.
  rewrite defenced_unfenced by done. fold (untagged (strip text)).
  rewrite braces_missing; [done |].
  destruct Hb as [H | H]; [left | right]; by apply untagged_lacks, strip_lacks.
Qed.

(** X3.  A reply without code fences whose last closing brace comes
    before its first opening brace: the slice between them is empty,
    and the decoder is given the empty string. *)
Theorem parse_json_blob_reversed_braces (a b c : string) :
  contains fence (a +:+ String "}" (b +:+ String "{" c)) = false ->
  lacks "{" a = true -> lacks "{" b = true ->
  lacks "}" b = true -> lacks "}" c = true ->
  parse_json_blob json_loads (a +:+ String "}" (b +:+ String "{" c)) = json_loads "".
Proof.
  intros Hfence Ha Hb Hb' Hc. unfold parse_json_blob.
  rewrite defenced_unfenced by done. rewrite strip_between by done.
  destruct (untagged_closing (lstrip a) (b +:+ String "{" (rstrip c))) as (a' & Ha' & ->).
  rewrite braces_reversed; [done | | done | done | by apply rstrip_lacks].
  by apply Ha', lstrip_lacks.
Qed.


End Edges.

Lemma parse_json_blob_plain_object_witness :
  parse_json_blob Json.loads (Json.q "Here you go: {'first_name': 'Ann'} Anything else?")
  = Some (Json.Object [("first_name", Json.Str "Ann")]).
Proof.
  exact (parse_json_blob_plain_object Json.loads "Here you go: "
           (Json.q "'first_name': 'Ann'") " Anything else?" eq_refl eq_refl eq_refl).
Defined.

Lemma parse_json_blob_without_braces_witness :
  parse_json_blob Json.loads (Json.q "  json ['Ann', 'Lee'] ")
  = Some (Json.Array [Json.Str "Ann"; Json.Str "Lee"])
  /\ parse_json_blob Json.loads "I cannot read this card." = None.
Proof.
  split.
  - exact (parse_json_blob_without_braces Json.loads (Json.q "  json ['Ann', 'Lee'] ")
             eq_refl (or_introl eq_refl)).
  - exact (parse_json_blob_without_braces Json.loads "I cannot read this card."
             eq_refl (or_introl eq_refl)).
Defined.

Lemma parse_json_blob_reversed_braces_witness :
  parse_json_blob Json.loads (Json.q "done} and then {'a': 'b'") = None.
Proof.
  exact (parse_json_blob_reversed_braces Json.loads "done" " and then " (Json.q "'a': 'b'")
           eq_refl eq_refl eq_refl eq_refl eq_refl).
Defined.


End BlobEdges.

(** ** The record store at its edges *)

Module StoreEdges.
Import PyStr PyStrFacts Csv CsvFacts App StoreFacts RoundTrip Errors Update Handlers.
Import Summary Lifecycle.
#[local] Open Scope M_scope.

(** The first line of every data file. *)
Definition header_text : string :=
  "id,first_name,last_name,company,company_logo_description,email,phone,address,"
  +:+ "meeting_context,priorities,personal_notes,captured_at,source_image,summary_image,"
  +:+ "raw_ocr_json" +:+ String CR (String LF "").

Lemma header_row_text : header_row = header_text.
Proof. by vm_compute. Qed.

Lemma dict_reader_header : dict_reader header_row = inr [].
Proof.
  pose proof (dict_reader_store_text [] (Forall_nil_2 _)) as H.
  unfold store_text in H. cbn [fmap list_fmap write_rows foldr] in H.
  by rewrite sapp_nil_r in H.
Qed.

(** X5.  While there is no data file, listing the cards gives the empty
    list and fetching any id gives 404; either request creates the file,
    which then holds the header line and nothing else. *)
Theorem first_read_creates_store (w : world) (card_id : string) :
  data_file w = None ->
  let w' := World (Some header_text) (image_dir w) (issued w) in
  list_cards w = (Ok [], w')
  /\ get_card card_id w = (HTTPException 404 "Card not found", w')
  /\ list_cards w' = (Ok [], w').
Proof.
  intros Hnone w'.
  assert (Hload : load_records w = (Ok [], w')).
  { rewrite load_records_run. unfold ensured, w'. rewrite Hnone. cbn [default].
    by rewrite dict_reader_header, header_row_text. }
  assert (Hload' : load_records w' = (Ok [], w')).
  { rewrite load_records_run. unfold ensured, w'. cbn [data_file default image_dir issued id].
    by rewrite <- header_row_text, dict_reader_header. }
  clearbody w'. split; [| split].
  - unfold list_cards, bind. rewrite Hload. reflexivity.
  - unfold get_card, bind. rewrite Hload. reflexivity.
  - unfold list_cards, bind. rewrite Hload'. reflexivity.
Qed.

Lemma first_read_creates_store_witness :
  list_cards empty_world = (Ok [], World (Some header_text) ∅ [])
  /\ get_card "a1" empty_world = (HTTPException 404 "Card not found", World (Some header_text) ∅ [])
  /\ list_cards (World (Some header_text) ∅ []) = (Ok [], World (Some header_text) ∅ []).
Proof. exact (first_read_creates_store empty_world "a1" eq_refl). Defined.

(** X6.  Listing and fetching leave the same world behind, whatever the
    data file holds, readable or not: an existing file keeps its text,
    a missing one becomes the header line, and neither the images nor
    the requests issued change. *)
Theorem reading_keeps_the_store (w : world) (card_id : string) :
  (list_cards w).2 = (get_card card_id w).2
  /\ data_file (list_cards w).2 = Some (default header_row (data_file w))
  /\ image_dir (list_cards w).2 = image_dir w
  /\ issued (list_cards w).2 = issued w.
Proof.
  assert (Hlist : (list_cards w).2 = ensured w).
  { unfold list_cards, bind. rewrite load_records_run.
    by destruct (outcome_of _). }
  assert (Hget : (get_card card_id w).2 = ensured w).
  { unfold get_card, bind. rewrite load_records_run.
    destruct (outcome_of _); [apply get_loop_world | done | done]. }
  rewrite Hlist, Hget. by repeat split.
Qed.

Lemma dict_to_list_unknown_key record :
  ¬ dom record ⊆ list_to_set COLUMNS -> dict_to_list record = inl ValueError.
Proof. intros H. unfold dict_to_list. by rewrite bool_decide_eq_false_2. Qed.

Lemma written_unknown_key good bad rest :
  Forall (fun r => dom r ⊆ list_to_set COLUMNS) good ->
  ¬ dom bad ⊆ list_to_set COLUMNS ->
  written (good ++ bad :: rest) = (write_rows (row_of <$> good), Some ValueError).
Proof.
  intros Hgood Hbad. induction Hgood as [|r good Hr _ IH].
  - cbn [app written]. by rewrite dict_to_list_unknown_key.
  - cbn [app written]. rewrite dict_to_list_columns by done. by rewrite IH.
Qed.

(** X7.  When a record has a key that is no column, [write_records]
    raises [ValueError] at that record: the file then holds the header
    and the records before it, and that record and all after it are
    gone from the store. *)
Theorem write_records_unknown_key (w : world) (good rest : list (gmap string string))
  (bad : gmap string string) :
  Forall has_columns good ->
  Forall within_limit good ->
  ¬ dom bad ⊆ list_to_set COLUMNS ->
  exists w',
    write_records (good ++ bad :: rest) w = (Raised ValueError, w')
    /\ data_file w' = Some (store_text good)
    /\ load_records w' = (Ok good, w').
Proof.
  intros Hcols Hlim Hbad. exists (stored w good).
  split; [| split; [done | by apply load_records_stored]].
  rewrite write_records_run. rewrite written_unknown_key; [done | | done].
  eapply Forall_impl; [exact Hcols | apply has_columns_subseteq].
Qed.

Definition nicknamed_card : gmap string string := <[ "nickname" := "Bo" ]> bo_card.

Lemma ann_card_columns : Forall has_columns [ann_card].
Proof.
  apply Forall_cons_2; [| apply Forall_nil_2].
  apply (bool_decide_unpack (has_columns _)). vm_compute. exact I.
Qed.

Lemma ann_card_within_limit : Forall within_limit [ann_card].
Proof.
  apply Forall_cons_2; [| apply Forall_nil_2].
  apply (bool_decide_unpack (within_limit _)). vm_compute. exact I.
Qed.

Lemma write_records_unknown_key_witness :
  exists w',
    write_records ([ann_card] ++ nicknamed_card :: [bo_card]) empty_world
    = (Raised ValueError, w')
    /\ data_file w' = Some (store_text [ann_card])
    /\ load_records w' = (Ok [ann_card], w').
Proof.
  apply (write_records_unknown_key empty_world [ann_card] [bo_card] nicknamed_card).
  - exact ann_card_columns.
  - exact ann_card_within_limit.
  - apply (bool_decide_unpack (¬ _)). vm_compute. exact I.
Defined.

(** A record with every column: the values of [record] where it has
    them, the empty string elsewhere. *)
Definition completed (record : gmap string string) : gmap string string :=
  list_to_map ((fun key => (key, default "" (record !! key))) <$> COLUMNS).

Lemma completed_lookup record key :
  key ∈ COLUMNS -> completed record !! key = Some (default "" (record !! key)).
Proof.
  intros Hkey. unfold completed.
  set (l := (fun key => (key, default "" (record !! key))) <$> COLUMNS).
  assert (Hkeys : l.*1 = COLUMNS) by done.
  apply elem_of_list_to_map; [rewrite Hkeys; apply NoDup_COLUMNS |].
  by apply (list_elem_of_fmap_2' _ _ key).
Qed.

Lemma completed_columns record : has_columns (completed record).
Proof. unfold has_columns, completed. by rewrite dom_list_to_map_L. Qed.

Lemma row_of_completed record : row_of (completed record) = row_of record.
Proof.
  unfold row_of. apply list_fmap_ext. intros i key Hi. rewrite completed_lookup; [done |]. by apply list_elem_of_lookup_2 in Hi.
Qed.

Lemma completed_within_limit record : within_limit record -> within_limit (completed record).
Proof.
  intros Hlim key v Hv.
  assert (Hkey : key ∈ COLUMNS).
  { assert (Hd : key ∈ dom (completed record)) by (apply elem_of_dom; by eexists).
    rewrite (completed_columns record) in Hd. by apply elem_of_list_to_set in Hd. }
  rewrite completed_lookup in Hv by done. injection Hv as <-.
  destruct (record !! key) as [x|] eqn:Hx; cbn [default]; [by apply (Hlim key) | done].
Qed.

Lemma store_text_completed records : store_text (completed <$> records) = store_text records.
Proof.
  unfold store_text. f_equal. f_equal. rewrite <- list_fmap_compose.
  apply list_fmap_ext. intros i r _. apply row_of_completed.
Qed.

(** X8.  Records that lack some columns are written with the empty
    string in their place: when every key is a column and every value
    is a string of code points below 256 with at most 131072
    characters, the field size limit of the reader, the file that
    [write_records] leaves loads as the same records in the same order,
    each with all columns, holding the value written where there was
    one and the empty string where there was none. *)
Theorem write_records_fills_missing (w : world) (records : list (gmap string string)) :
  Forall (fun r => dom r ⊆ list_to_set COLUMNS) records ->
  Forall within_limit records ->
  exists w' loaded,
    write_records records w = (Ok (), w')
    /\ load_records w' = (Ok loaded, w')
    /\ Forall2 (fun r r' =>
                  has_columns r'
                  /\ forall key, key ∈ COLUMNS -> r' !! key = Some (default "" (r !! key)))
         records loaded.
Proof.
  intros Hkeys Hlim. exists (stored w (completed <$> records)), (completed <$> records).
  split; [| split].
  - rewrite write_records_columns by done. unfold stored. by rewrite store_text_completed.
  - apply load_records_stored.
    + apply Forall_fmap, Forall_forall. intros r _. apply completed_columns.
    + apply Forall_fmap. eapply Forall_impl; [exact Hlim |]. apply completed_within_limit.
  - apply Forall2_fmap_r, Forall_Forall2_diag, Forall_forall. intros r _.
    split; [apply completed_columns |]. intros key Hkey. by apply completed_lookup.
Qed.

Definition partial_card : gmap string string :=
  {[ "id" := "c3"; "first_name" := "Cy" ]}.

Lemma write_records_fills_missing_witness :
  exists w' loaded,
    write_records [partial_card] empty_world = (Ok (), w')
    /\ load_records w' = (Ok loaded, w')
    /\ Forall2 (fun r r' =>
                  has_columns r'
                  /\ forall key, key ∈ COLUMNS -> r' !! key = Some (default "" (r !! key)))
         [partial_card] loaded.
Proof.
  apply (write_records_fills_missing empty_world [partial_card]).
  - apply Forall_cons_2; [| apply Forall_nil_2].
    apply (bool_decide_unpack (_ ⊆ _)). vm_compute. exact I.
  - apply Forall_cons_2; [| apply Forall_nil_2].
    apply (bool_decide_unpack (within_limit _)). vm_compute. exact I.
Defined.

Lemma get_inj r1 r2 key d :
  is_Some (r1 !! key) -> is_Some (r2 !! key) ->
  get r1 key d = get r2 key d -> r1 !! key = r2 !! key.
Proof. unfold get. intros [v1 ->] [v2 ->] H. by rewrite H. Qed.

Lemma media_url_inj r1 r2 key :
  is_Some (r1 !! key) -> is_Some (r2 !! key) ->
  media_url r1 key = media_url r2 key -> r1 !! key = r2 !! key.
Proof.
  unfold media_url. intros [v1 ->] [v2 ->] H.
  destruct v1 as [|c1 s1], v2 as [|c2 s2]; try done.
  apply (inj Some), String.app_inj in H. by rewrite H.
Qed.

Lemma has_columns_lookup record key :
  has_columns record -> key ∈ COLUMNS -> is_Some (record !! key).
Proof.
  intros Hdom Hkey. apply elem_of_dom. rewrite Hdom. by apply elem_of_list_to_set.
Qed.

(** X9.  The response keeps everything a stored record holds: two
    records with all columns that serialize to the same response are the
    same record. *)
Theorem serialize_record_injective (r1 r2 : gmap string string) :
  has_columns r1 -> has_columns r2 ->
  serialize_record r1 = serialize_record r2 -> r1 = r2.
Proof.
  intros H1 H2 Heq. apply map_eq. intros key.
  destruct (decide (key ∈ COLUMNS)) as [Hkey | Hkey].
  - pose proof (has_columns_lookup r1 key H1 Hkey) as Hs1.
    pose proof (has_columns_lookup r2 key H2 Hkey) as Hs2.
    unfold serialize_record in Heq.
    injection Heq as E1 E2 E3 E4 E5 E6 E7 E8 E9 E10 E11 E12 E13 E14 E15.
    unfold COLUMNS in Hkey.
    repeat (apply elem_of_cons in Hkey as [-> | Hkey];
            [first [by apply (get_inj _ _ _ "") | by apply (get_inj _ _ _ "{}")
                   | by apply media_url_inj] |]).
    by apply elem_of_nil in Hkey.
  - assert (Hn : forall r, has_columns r -> r !! key = None).
    { intros r Hr. apply not_elem_of_dom. rewrite Hr. by rewrite elem_of_list_to_set. }
    by rewrite !Hn.
Qed.

Lemma serialize_record_injective_witness :
  <[ "summary_image" := "" ]> ann_card = ann_card.
Proof.
  apply serialize_record_injective.
  - apply (bool_decide_unpack (has_columns _)). vm_compute. exact I.
  - apply (bool_decide_unpack (has_columns _)). vm_compute. exact I.
  - vm_compute. reflexivity.
Defined.

(** The first response with the id, as [get_card] finds it. *)
Definition first_with_id (card_id : string) (resps : list CardResponse) : outcome CardResponse :=
  match List.find (fun resp => String.eqb (resp_id resp) card_id) resps with
  | Some resp => Ok resp
  | None => HTTPException 404 "Card not found"
  end.

Lemma get_loop_first_with_id card_id records w :
  Forall has_columns records ->
  get_loop card_id records w = (first_with_id card_id (serialize_record <$> records), w).
Proof.
  unfold first_with_id. induction 1 as [|r records Hr _ IH]; [done |].
  cbn [get_loop fmap list_fmap List.find].
  destruct (has_columns_id r Hr) as [v Hv]. rewrite Hv.
  assert (Hid : resp_id (serialize_record r) = v).
  { cbn [serialize_record resp_id]. unfold get. by rewrite Hv. }
  rewrite Hid. destruct (String.eqb_spec v card_id) as [-> | Hne].
  - by rewrite bool_decide_eq_true_2.
  - rewrite bool_decide_eq_false_2 by done. exact IH.
Qed.

(** X10.  On a store that holds records written by this module,
    [get_card] answers with the first entry of what [list_cards]
    returns that has the id, and with 404 when no entry has it; both
    leave the same world. *)
Theorem get_card_first_listed (w w1 : world) (records : list (gmap string string))
  (resps : list CardResponse) (card_id : string) :
  holds w records ->
  list_cards w = (Ok resps, w1) ->
  get_card card_id w = (first_with_id card_id resps, w1).
Proof.
  intros Hholds Hlist. unfold list_cards, get_card, bind in *.
  rewrite (load_records_holds w records Hholds) in Hlist |- *.
  destruct (records_fit records); [| discriminate Hlist].
  cbn [ret] in Hlist. injection Hlist as <- <-.
  apply get_loop_first_with_id, Hholds.
Qed.

Lemma get_card_first_listed_witness :
  get_card "b2" sample_world
  = (first_with_id "b2" (serialize_record <$> sample_records), sample_world)
  /\ first_with_id "b2" (serialize_record <$> sample_records) = Ok (serialize_record bo_card).
Proof.
  split; [| reflexivity].
  apply (get_card_first_listed sample_world sample_world sample_records).
  - exact Upload.sample_world_holds.
  - unfold list_cards, bind. rewrite sample_world_loads. reflexivity.
Defined.

End StoreEdges.

(** ** [update_record] composed with itself and with [get_card] *)

Module UpdateEdges.
Import PyStr PyStrFacts Csv CsvFacts App StoreFacts RoundTrip Errors Update Handlers.
Import Summary Lifecycle.
#[local] Open Scope M_scope.



Lemma has_columns_middle before row rest :
  Forall has_columns (before ++ row :: rest) -> has_columns row.
Proof. intros [_ [? _]%Forall_cons]%Forall_app. done. Qed.






Lemma store_text_nil : store_text [] = header_row.
Proof. unfold store_text. cbn [fmap list_fmap write_rows foldr]. apply sapp_nil_r. Qed.

(** A store that holds a record has a data file. *)
Lemma holds_nonempty w before row rest :
  holds w (before ++ row :: rest) ->
  w = stored w (before ++ row :: rest).
Proof.
  intros [Hfile _]. destruct w as [[text|] images events]; cbn [data_file default from_option id] in Hfile.
  - unfold stored. cbn [image_dir issued]. by rewrite Hfile.
  - exfalso. rewrite <- store_text_nil in Hfile. symmetry in Hfile.
    destruct before as [|r before]; by apply store_text_cons_ne in Hfile.
Qed.





End UpdateEdges.

(** ** [upload_card]: what is saved, and when *)

Module UploadEdges.
Import PyStr PyStrFacts Csv CsvFacts App StoreFacts RoundTrip Errors Update Handlers.
Import Upload Summary Lifecycle UpdateEdges.
#[local] Open Scope M_scope.

(** The world once the extraction request has been issued and the image
    saved. *)
Definition with_image (e : env) (f : UploadFile) (w : world) : world :=
  World (data_file w)
    (<[source_name e f := file_bytes f]> (image_dir w))
    (issued w ++ [ChatCompletion (extraction_request e (file_bytes f) (content_type f))]).

(** [upload_card] up to the point where the store is read. *)
Lemma upload_card_run e f w :
  file_bytes f <> [] ->
  exists stamp,
    Capture.extract_capture_datetime (image_exif e) (TAGS e) (strptime e) (now e) (file_bytes f)
    = inr stamp
    /\ upload_card e (Some f) w
       = match chat_service e (extraction_request e (file_bytes f) (content_type f)) with
         | inl err =>
             (Raised err,
              World (data_file w) (image_dir w)
                (issued w
                 ++ [ChatCompletion (extraction_request e (file_bytes f) (content_type f))]))
         | inr content =>
             match Blob.parse_json_blob (json_loads e) content with
             | None =>
                 (Raised JSONDecodeError,
                  World (data_file w) (image_dir w)
                    (issued w
                     ++ [ChatCompletion (extraction_request e (file_bytes f) (content_type f))]))
             | Some extracted =>
                 let record := new_record e (uuid4 e) stamp (source_name e f) extracted in
                 bind load_records
                   (fun records =>
                      bind (write_records (records ++ [record]))
                        (fun _ => ret (serialize_record record)))
                   (with_image e f w)
             end
         end.
Proof.
  intros Hbytes.
  destruct (extract_capture_datetime_returns e (file_bytes f)) as [stamp Hstamp].
  exists stamp. split; [done |]. unfold upload_card, with_image.
  destruct (file_bytes f) as [|b bs] eqn:Hb; [done |].
  unfold bind at 1. rewrite Hstamp. cbn [lift ret].
  unfold bind at 1. unfold extract_card_details.
  unfold bind at 1. cbn [issue]. unfold bind at 1.
  destruct (chat_service e _) as [err | content]; cbn [lift raise ret id]; [done |].
  destruct (Blob.parse_json_blob (json_loads e) content) as [extracted |]; cbn [raise ret];
    [| done].
  unfold bind at 1. cbn [save_image]. reflexivity.
Qed.



Lemma source_name_nonempty e f : exists c s, source_name e f = String c s.
Proof. unfold source_name. destruct (uuid4 e); cbn [String.append]; by eexists _, _. Qed.

(** X15.  An upload that succeeds has written the uploaded bytes to the
    image directory under the card id followed by [_source] and the
    extension, and nothing else there; the response carries the new id,
    links that image under [/media/], and has no summary image. *)
Theorem upload_card_saves_image (e : env) (f : UploadFile) (w w' : world)
  (resp : CardResponse) :
  upload_card e (Some f) w = (Ok resp, w') ->
  image_dir w' = <[source_name e f := file_bytes f]> (image_dir w)
  /\ resp_id resp = uuid4 e
  /\ resp_source_image_url resp = Some ("/media/" +:+ source_name e f)
  /\ resp_summary_image_url resp = None.
Proof.
  intros Hrun.
  destruct (decide (file_bytes f = [])) as [Hempty | Hbytes].
  { unfold upload_card in Hrun. rewrite Hempty in Hrun. discriminate Hrun. }
  destruct (upload_card_run e f w Hbytes) as (stamp & _ & Hshape).
  rewrite Hrun in Hshape. clear Hrun.
  destruct (chat_service e _) as [err | content];
    [apply (f_equal fst) in Hshape; discriminate Hshape |].
  destruct (Blob.parse_json_blob (json_loads e) content) as [extracted |];
    [| apply (f_equal fst) in Hshape; discriminate Hshape].
  cbv zeta in Hshape. set (record := new_record e (uuid4 e) stamp (source_name e f) extracted) in *.
  unfold bind in Hshape. rewrite load_records_run in Hshape.
  destruct (outcome_of (dict_reader _)) as [records | c d | err];
    [| apply (f_equal fst) in Hshape; discriminate Hshape..].
  rewrite write_records_run in Hshape.
  destruct (written (records ++ [record])).2;
    [apply (f_equal fst) in Hshape; discriminate Hshape |].
  unfold ret in Hshape.
  pose proof (f_equal fst Hshape) as Hresp. cbn [fst] in Hresp. injection Hresp as Hresp.
  apply (f_equal (fun p => image_dir p.2)) in Hshape. cbn [snd image_dir ensured with_image] in Hshape.
  split; [exact Hshape |]. subst resp. split; [reflexivity |]. split; [| reflexivity].
  cbn [serialize_record resp_source_image_url]. unfold media_url.
  change (record !! "source_image") with (Some (source_name e f)).
  by destruct (source_name_nonempty e f) as (c & s & ->).
Qed.

Lemma upload_card_saves_image_witness :
  exists resp w',
    upload_card sample_env (Some sample_upload) sample_world = (Ok resp, w')
    /\ image_dir w' = {[ "7d444840-9dc0-11d1-b245-5ffdce74fad2_source.jpeg" := [Byte.x01] ]}
    /\ resp_source_image_url resp
       = Some "/media/7d444840-9dc0-11d1-b245-5ffdce74fad2_source.jpeg".
Proof.
  destruct (upload_card sample_env (Some sample_upload) sample_world) as [out w'] eqn:Hrun.
  assert (Hout : exists resp, out = Ok resp).
  { apply (f_equal fst) in Hrun. cbn [fst] in Hrun. rewrite <- Hrun.
    eexists. vm_compute. reflexivity. }
  destruct Hout as [resp ->]. exists resp, w'. split; [reflexivity |].
  destruct (upload_card_saves_image sample_env sample_upload sample_world w' resp Hrun)
    as (Himages & _ & Hurl & _).
  split; [exact Himages | exact Hurl].
Defined.

(** X16.  A card can be fetched as soon as it is uploaded: when the id
    drawn is not yet in the store and the file left by the upload can be
    read, [get_card] on the new id returns the very response of the
    upload, and [list_cards] returns the earlier cards followed by
    it. *)
Theorem upload_card_then_get_card (e : env) (f : UploadFile) (w w' w'' : world)
  (records loaded : list (gmap string string)) (resp : CardResponse) :
  holds w records ->
  absent (uuid4 e) records ->
  upload_card e (Some f) w = (Ok resp, w') ->
  load_records w' = (Ok loaded, w'') ->
  get_card (resp_id resp) w' = (Ok resp, w')
  /\ list_cards w' = (Ok ((serialize_record <$> records) ++ [resp]), w').
Proof.
  intros Hholds Habsent Hrun Hload.
  destruct (decide (file_bytes f = [])) as [Hempty | Hbytes].
  { unfold upload_card in Hrun. rewrite Hempty in Hrun. discriminate Hrun. }
  destruct (upload_card_holds e f w records Hbytes Hholds) as (out & w0 & Hrun0 & _ & Hcases).
  rewrite Hrun in Hrun0. injection Hrun0 as <- <-.
  destruct Hcases as [[_ Hno] | (stamp & content & extracted & _ & _ & _ & Hout & Hnew)];
    [by destruct (Hno resp) |].
  cbv zeta in Hout, Hnew.
  set (record := new_record e (uuid4 e) stamp (source_name e f) extracted) in *.
  injection Hout as ->.
  assert (Hw' : ensured w' = w').
  { rewrite (holds_nonempty w' records record [] Hnew). reflexivity. }
  rewrite (load_records_holds w' _ Hnew), Hw' in Hload.
  destruct (records_fit (records ++ [record])) eqn:Hfit;
    [| apply (f_equal fst) in Hload; discriminate Hload].
  clear Hload.
  assert (Hload : load_records w' = (Ok (records ++ [record]), w')).
  { by rewrite (load_records_holds w' _ Hnew), Hfit, Hw'. }
  split.
  - unfold get_card, bind. rewrite Hload. by apply get_loop_found.
  - unfold list_cards, bind. rewrite Hload. unfold ret. by rewrite fmap_app.
Qed.

Lemma sample_upload_runs :
  exists resp w',
    upload_card sample_env (Some sample_upload) sample_world = (Ok resp, w')
    /\ exists loaded w'', load_records w' = (Ok loaded, w'').
Proof.
  destruct (upload_card_holds sample_env sample_upload sample_world sample_records)
    as (out & w' & Hrun & _ & Hcases); [discriminate | exact sample_world_holds |].
  assert (Hout : exists resp, out = Ok resp).
  { apply (f_equal fst) in Hrun. cbn [fst] in Hrun. rewrite <- Hrun.
    eexists. vm_compute. reflexivity. }
  destruct Hout as [resp ->]. exists resp, w'. split; [done |].
  destruct Hcases as [[_ Hno] | (stamp & content & extracted & Hstamp & Hchat & Hparse & _ & Hnew)];
    [by destruct (Hno resp) |].
  cbv zeta in Hnew. eexists _, _. rewrite (load_records_holds w' _ Hnew).
  rewrite records_fit_within; [reflexivity |].
  apply Forall_app. split; [exact sample_records_within_limit |].
  apply Forall_cons_2; [| apply Forall_nil_2].
  vm_compute in Hstamp. injection Hstamp as <-.
  vm_compute in Hchat. injection Hchat as <-.
  injection Hparse as <-.
  apply (bool_decide_unpack (within_limit _)). vm_compute. exact I.
Qed.

Lemma sample_records_fresh : absent (uuid4 sample_env) sample_records.
Proof.
  change (uuid4 sample_env) with "7d444840-9dc0-11d1-b245-5ffdce74fad2".
  apply Forall_cons_2; [exists "a1"; split; [reflexivity | discriminate] |].
  apply Forall_cons_2; [exists "b2"; split; [reflexivity | discriminate] | apply Forall_nil_2].
Qed.

Lemma upload_card_then_get_card_witness :
  exists resp w',
    upload_card sample_env (Some sample_upload) sample_world = (Ok resp, w')
    /\ get_card (resp_id resp) w' = (Ok resp, w')
    /\ list_cards w' = (Ok ((serialize_record <$> sample_records) ++ [resp]), w').
Proof.
  destruct sample_upload_runs as (resp & w' & Hrun & loaded & w'' & Hload).
  exists resp, w'. split; [exact Hrun |].
  apply (upload_card_then_get_card sample_env sample_upload sample_world w' w''
           sample_records loaded resp).
  - exact sample_world_holds.
  - exact sample_records_fresh.
  - exact Hrun.
  - exact Hload.
Defined.

(** X17.  The image is saved before the store is read: when the
    extraction succeeds and reading the data file raises, the upload
    ends with that exception, the uploaded bytes are nevertheless in the
    image directory, and the text of an existing data file is
    untouched. *)
Theorem upload_card_unreadable_store (e : env) (f : UploadFile) (w : world)
  (content : string) (extracted : gmap string string) (err : exn) :
  file_bytes f <> [] ->
  chat_service e (extraction_request e (file_bytes f) (content_type f)) = inr content ->
  Blob.parse_json_blob (json_loads e) content = Some extracted ->
  (load_records w).1 = Raised err ->
  exists w',
    upload_card e (Some f) w = (Raised err, w')
    /\ image_dir w' = <[source_name e f := file_bytes f]> (image_dir w)
    /\ data_file w' = Some (default header_row (data_file w)).
Proof.
  intros Hbytes Hchat Hparse Hload.
  destruct (upload_card_run e f w Hbytes) as (stamp & _ & ->).
  rewrite Hchat, Hparse. cbv zeta. unfold bind. rewrite load_records_run.
  rewrite load_records_run in Hload. cbn [fst] in Hload.
  change (data_file (with_image e f w)) with (data_file w). rewrite Hload.
  eexists. split; [reflexivity |]. by split.
Qed.

Definition unreadable_world : world := (write_records [long_card] empty_world).2.

Lemma upload_card_unreadable_store_witness :
  exists w',
    upload_card sample_env (Some sample_upload) unreadable_world
    = (Raised (CsvError FieldLimit), w')
    /\ image_dir w'
       = <[source_name sample_env sample_upload := [Byte.x01]]> (image_dir unreadable_world)
    /\ data_file w' = Some (default header_row (data_file unreadable_world)).
Proof.
  eapply (upload_card_unreadable_store sample_env sample_upload unreadable_world).
  - discriminate.
  - reflexivity.
  - vm_compute. reflexivity.
  - exact long_card_unreadable.
Defined.

End UploadEdges.

(** ** [save_context]: the response, a failing image request, a second call *)

Module ContextEdges.
Import PyStr PyStrFacts Csv CsvFacts App StoreFacts RoundTrip Errors Update Handlers.
Import Upload Summary Lifecycle UpdateEdges.
#[local] Open Scope M_scope.



Lemma context_changes_other payload key :
  key ∉ ["meeting_context"; "priorities"; "personal_notes"] ->
  context_changes payload !! key = None.
Proof.
  intros Hkey. unfold context_changes.
  apply not_elem_of_list_to_map_1. cbn [fmap list_fmap fst]. exact Hkey.
Qed.









(** X19.  When the image request raises, [save_context] ends with that
    exception after the annotations were stored: the record in the
    store has the three fields of the payload and is otherwise as
    before, its summary image included, and no image file is
    written. *)
Theorem save_context_image_failure (e : env) (w : world)
  (before rest : list (gmap string string)) (row : gmap string string)
  (card_id : string) (payload : CardContext) (err : exn) :
  holds w (before ++ row :: rest) ->
  Forall within_limit (before ++ row :: rest) ->
  absent card_id before ->
  row !! "id" = Some card_id ->
  utils_create_image e (summarize_for_image (context_changes payload ∪ row) payload) "1024x1024"
  = inl err ->
  exists row' w',
    save_context e card_id payload w = (Raised err, w')
    /\ holds w' (before ++ row' :: rest)
    /\ image_dir w' = image_dir w
    /\ row' !! "meeting_context" = Some (meeting_context payload)
    /\ row' !! "priorities" = Some (priorities payload)
    /\ row' !! "personal_notes" = Some (personal_notes payload)
    /\ (forall key, key ∉ ["meeting_context"; "priorities"; "personal_notes"] ->
                    row' !! key = row !! key).
Proof.
  intros Hholds Hlim Hbefore Hid Himage.
  pose proof (save_context_found e card_id payload w before row rest Hholds
                (records_fit_within _ Hlim) Hbefore Hid) as Hrun.
  cbv zeta in Hrun. rewrite Himage in Hrun.
  set (row1 := context_changes payload ∪ row) in *.
  assert (Hrow : has_columns row) by (apply (has_columns_middle before row rest), Hholds).
  assert (Hrow1 : has_columns row1)
    by (apply has_columns_union; [apply context_changes_columns | done]).
  destruct (context_changes_lookup payload row) as (Hmc & Hpr & Hpn). fold row1 in Hmc, Hpr, Hpn.
  exists row1, (world_with (before ++ row1 :: rest) (image_dir w)
                  (issued w ++ [ImageGeneration (summarize_for_image row1 payload) "1024x1024"])).
  split; [exact Hrun |].
  split; [apply holds_world_with, (has_columns_replace before row); [apply Hholds | done] |].
  split; [reflexivity |]. do 3 (split; [done |]).
  intros key Hkey. unfold row1. rewrite lookup_union_r; [done |].
  by apply context_changes_other.
Qed.

Definition failing_env : env :=
  Env (image_exif sample_env) (TAGS sample_env) (strptime sample_env) (now sample_env)
    (uuid4 sample_env) (path_suffix sample_env) (b64encode sample_env)
    (chat_service sample_env) (json_loads sample_env) (json_dumps sample_env)
    (fun _ _ => inl ServiceError).

Lemma save_context_image_failure_witness :
  exists row' w',
    save_context failing_env "b2" sample_context sample_world = (Raised ServiceError, w')
    /\ holds w' ([ann_card] ++ row' :: [])
    /\ image_dir w' = image_dir sample_world
    /\ row' !! "meeting_context" = Some (meeting_context sample_context)
    /\ row' !! "priorities" = Some (priorities sample_context)
    /\ row' !! "personal_notes" = Some (personal_notes sample_context)
    /\ (forall key, key ∉ ["meeting_context"; "priorities"; "personal_notes"] ->
                    row' !! key = bo_card !! key).
Proof.
  apply (save_context_image_failure failing_env sample_world [ann_card] [] bo_card "b2"
           sample_context ServiceError).
  - exact sample_world_holds.
  - exact sample_records_within_limit.
  - apply Forall_cons_2; [by exists "a1" | apply Forall_nil_2].
  - reflexivity.
  - reflexivity.
Defined.










End ContextEdges.

(** ** The name in the summary prompt *)

Module PromptName.
Import PyStr PyStrFacts App Summary.

(** The stripped names joined by one space, or the one that is not
    empty, or nothing. *)
Definition joined_name (first last : string) : string :=
  match strip first, strip last with
  | "", l => l
  | f, "" => f
  | f, l => f +:+ " " +:+ l
  end.

Lemma strip_joined first last :
  strip (strip first +:+ " " +:+ strip last) = joined_name first last.
Proof.
  unfold joined_name.
  destruct (strip first) as [|c f] eqn:Hf.
  - cbn [String.append]. unfold strip at 1. cbn [lstrip]. 
    change (isspace " ") with true. cbn iota.
    by rewrite lstrip_strip, rstrip_strip.
  - assert (Hc : isspace c = false) by (by apply (strip_head first c f)).
    assert (Hr : rstrip (String c f) = String c f) by (rewrite <- Hf; apply rstrip_strip).
    unfold strip at 1. cbn [String.append lstrip]. rewrite Hc.
    destruct (strip last) as [|d l] eqn:Hl.
    + change (String c (f +:+ " ")) with (String c f +:+ " ").
      by rewrite rstrip_app_space.
    + assert (Hrl : rstrip (String d l) = String d l) by (rewrite <- Hl; apply rstrip_strip).
      assert (Hsp : rstrip (String " " (String d l)) = String " " (String d l))
        by (by rewrite rstrip_cons, Hrl).
      change (String c (f +:+ String " " (String d l)))
        with (String c f +:+ String " " (String d l)).
      rewrite rstrip_app_keep by (by rewrite Hsp). by rewrite Hsp.
Qed.

(** X21.  The prompt names the contact by the stripped first and last
    names joined by one space; when one of them is blank the other
    stands alone, with no space left over; and when both are blank or
    missing the prompt speaks of [this contact]. *)
Theorem summarize_for_image_name (record : gmap string string) (context : CardContext) :
  let first := strip (get record "first_name" "") in
  let last := strip (get record "last_name" "") in
  let name :=
    match first, last with
    | "", "" => "this contact"
    | "", l => l
    | f, "" => f
    | f, l => f +:+ " " +:+ l
    end in
  exists rest,
    summarize_for_image record context
    = "Create a friendly, professional portrait for " +:+ name +:+ " who works at " +:+ rest.
Proof.
  intros first last name. unfold summarize_for_image. cbv zeta.
  rewrite strip_joined. unfold joined_name. fold first. fold last.
  unfold name. clearbody first last. eexists.
  destruct first as [|c f], last as [|d l]; reflexivity.
Qed.

End PromptName.
